(** * lightshow: a sound-reactive LED strip (src/main.cpp)

    A shallow embedding of the audio pipeline of [src/main.cpp] and the
    properties its design document states about it.

    Numeric conventions.
    - [int], [int16_t], [int32_t], [size_t] and [unsigned long] values are
      integers of [Z]; where the source can wrap (the [int32_t] product
      [sample * sample], the [unsigned long] difference of two [millis()]
      readings, the [int16_t] sample count) the wrap-around is written out.
    - [float] and [double] values are real numbers of [R]: rounding, NaN and
      infinities are not represented.  [sqrt] is the real square root and
      [pow] is [Rpower].  Where the [int32_t] squares wrap, the sum of
      squares of a block can be negative; the source's [sqrt] then yields
      NaN, whereas [sqrt] of [R] yields 0.  A statement about the value of
      an RMS, or of the baseline computed from it, therefore carries the
      hypothesis that no kept sample's square wraps.
    - C arrays are lists; an index is a [Z] as in the source. *)

From Stdlib Require Import ZArith List Bool Lia.
From Stdlib Require Import Reals Lra.
From Stdlib Require Import QArith.
From Stdlib Require Import String Ascii DecimalString.
Import ListNotations.

Local Open Scope Z_scope.

(** ** Configuration (the [#define]s of the source) *)

Definition LED_COUNT : Z := 60.
Definition BUFFER_LEN : Z := 64.
Definition MAX_VOLUME_TARGET : Z := 3000.
Definition FILTER_SIZE : Z := 5.
Definition CALIBRATION_SAMPLES : nat := 100.
Definition MIN_VOLUME : Z := 1500.
Definition UPDATE_INTERVAL : Z := 5.
Definition CALIBRATION_WINDOW : Z := 5000.
Definition VOLUME_SAMPLES : Z := 500.
Definition PEAK_HISTORY_SIZE : Z := 10.

(** ** Machine integers *)

Module Int.

(** Two's complement reading of the low [w] bits of [z]. *)
Definition wrap (w : Z) (z : Z) : Z :=
  (z + 2 ^ (w - 1)) mod 2 ^ w - 2 ^ (w - 1).

Definition to_int16 (z : Z) : Z := wrap 16 z.
Definition to_int32 (z : Z) : Z := wrap 32 z.

(** [a * b] on two [int32_t] operands.  C++ leaves signed overflow
    undefined; the 32-bit multiply of the target keeps the low 32 bits. *)
Definition mul32 (a b : Z) : Z := to_int32 (a * b).

(** [x >> 14] on an [int32_t]: arithmetic shift. *)
Definition asr14 (x : Z) : Z := Z.shiftr x 14.

(** [a - b] on two [unsigned long] (32-bit) operands. *)
Definition usub32 (a b : Z) : Z := (a - b) mod 2 ^ 32.

End Int.

(** ** Arrays *)

Fixpoint set_nth {A : Type} (l : list A) (n : nat) (x : A) : list A :=
  match l, n with
  | [], _ => []
  | _ :: t, O => x :: t
  | h :: t, S n' => h :: set_nth t n' x
  end.

(** [a[i] = x].  Every index the program writes at is in range (it is
    reduced modulo the array size); an index outside the array leaves the
    list as it is. *)
Definition array_set {A : Type} (a : list A) (i : Z) (x : A) : list A :=
  if i <? 0 then a else set_nth a (Z.to_nat i) x.

Definition array_get {A : Type} (d : A) (a : list A) (i : Z) : A :=
  if i <? 0 then d else nth (Z.to_nat i) a d.

(** ** The Arduino macros and C library functions used on floats *)

Local Open Scope R_scope.

(** [max(a, b)] on floats: the larger operand. *)
Definition c_max (a b : R) : R := if Rgt_dec a b then a else b.

(** [constrain(amt, low, high)]:
    [(amt) < (low) ? (low) : ((amt) > (high) ? (high) : (amt))]. *)
Definition constrain (amt low high : R) : R :=
  if Rlt_dec amt low then low
  else if Rgt_dec amt high then high else amt.

(** [constrain] on integer operands. *)
Definition constrainZ (amt low high : Z) : Z :=
  if (amt <? low)%Z then low
  else if (amt >? high)%Z then high else amt.

(** [round(x)]: to the nearest integer, halves away from zero. *)
Definition c_round (x : R) : Z :=
  if Rle_dec 0 x then Int_part (x + / 2)
  else (- Int_part (- x + / 2))%Z.

(** ** Envelope extractor

    The loop over the sample block, present twice in the source (in
    [calibrateBaseline] with the bound 50000 and in [loop] with the bound
    100000).  The accumulator is the pair ([sum], valid count). *)

Definition accumulate (limit : Z) (acc : R * Z) (raw : Z) : R * Z :=
  let sample := Int.asr14 raw in
  if (Z.abs sample <? limit)%Z
  then (fst acc + IZR (Int.mul32 sample sample), (snd acc + 1)%Z)
  else acc.

Definition sumSquares (limit : Z) (block : list Z) : R * Z :=
  fold_left (accumulate limit) block (0, 0%Z).

(** One acquisition: the status of [i2s_read], the byte count it reports
    and the contents of [sBuffer] after the call. *)
Record Read : Type := mkRead {
  result_ok : bool;
  bytesIn : Z;
  sBuffer : list Z
}.

(** [samples_read = bytesIn / sizeof(int32_t)], stored in an [int16_t]. *)
Definition samples_read (rd : Read) : Z := Int.to_int16 (bytesIn rd / 4).

(** The samples the loop visits: [sBuffer[0 .. samples_read - 1]]. *)
Definition block (rd : Read) : list Z :=
  firstn (Z.to_nat (samples_read rd)) (sBuffer rd).

(** The RMS of one acquisition, when the read succeeded with at least one
    byte and at least one sample passed the spike filter.  The value is the
    source's as long as [sum] is not negative, that is, as long as no
    square has wrapped; for a negative [sum] the source has NaN and this
    definition, by the convention of [sqrt] on [R], has 0. *)
Definition blockRms (limit : Z) (rd : Read) : option R :=
  if result_ok rd && (0 <? bytesIn rd)%Z then
    let '(sum, validSamples) := sumSquares limit (block rd) in
    if (0 <? validSamples)%Z
    then Some (sqrt (sum / IZR validSamples))
    else None
  else None.

(** ** Program state

    The globals of the source and the two [static] locals of [loop]
    ([previousVolume], [lastUpdate]). *)

Record State : Type := mkState {
  volume : R;
  smoothVolume : R;
  maxVolume : R;
  volumeFilter : list R;
  filterIndex : Z;
  baselineNoise : R;
  dynamicScaleFactor : R;
  rawVolumeHistory : list R;
  volumeIndex : Z;
  lastCalibration : Z;
  peakHistory : list R;
  peakIndex : Z;
  peakCount : Z;
  previousVolume : R;
  lastUpdate : Z
}.

(** The state after the initialisers and the two array-clearing loops of
    [setup], before [calibrateBaseline] runs. *)
Definition initial_state : State := {|
  volume := 0;
  smoothVolume := 0;
  maxVolume := IZR MAX_VOLUME_TARGET;
  volumeFilter := repeat 0 (Z.to_nat FILTER_SIZE);
  filterIndex := 0;
  baselineNoise := 15000;
  dynamicScaleFactor := 2;
  rawVolumeHistory := repeat 0 (Z.to_nat VOLUME_SAMPLES);
  volumeIndex := 0;
  lastCalibration := 0;
  peakHistory := repeat 0 (Z.to_nat PEAK_HISTORY_SIZE);
  peakIndex := 0;
  peakCount := 0;
  previousVolume := 0;
  lastUpdate := 0
|}.

(** ** Serial output *)

Inductive SerialItem : Type :=
| PrintStr (s : string)
| PrintlnStr (s : string)
| PrintInt (z : Z)
| PrintlnInt (z : Z)
| PrintFloat (x : R)
| PrintlnFloat (x : R).

(** ** Peak averaging *)

Definition addPeakToHistory (peak : R) (st : State) : State := {|
  volume := volume st;
  smoothVolume := smoothVolume st;
  maxVolume := maxVolume st;
  volumeFilter := volumeFilter st;
  filterIndex := filterIndex st;
  baselineNoise := baselineNoise st;
  dynamicScaleFactor := dynamicScaleFactor st;
  rawVolumeHistory := rawVolumeHistory st;
  volumeIndex := volumeIndex st;
  lastCalibration := lastCalibration st;
  peakHistory := array_set (peakHistory st) (peakIndex st) peak;
  peakIndex := Z.rem (peakIndex st + 1) PEAK_HISTORY_SIZE;
  peakCount := if (peakCount st <? PEAK_HISTORY_SIZE)%Z
               then (peakCount st + 1)%Z else peakCount st;
  previousVolume := previousVolume st;
  lastUpdate := lastUpdate st
|}.

(** [sum] of [a[0 .. n - 1]], added left to right from 0. *)
Definition sumUpTo (n : Z) (a : list R) : R :=
  fold_left Rplus (firstn (Z.to_nat n) a) 0.

Definition getAveragePeak (st : State) : R :=
  if (peakCount st =? 0)%Z then 0
  else sumUpTo (peakCount st) (peakHistory st) / IZR (peakCount st).

(** ** Calibration *)

(** One iteration of the outer loop of [calibrateBaseline]; the accumulator
    is ([totalNoise], [validSamples]). *)
Definition calibrateStep (acc : R * Z) (rd : Read) : R * Z :=
  match blockRms 50000 rd with
  | Some rms => (fst acc + rms, (snd acc + 1)%Z)
  | None => acc
  end.

Definition set_baselineNoise (b : R) (st : State) : State := {|
  volume := volume st;
  smoothVolume := smoothVolume st;
  maxVolume := maxVolume st;
  volumeFilter := volumeFilter st;
  filterIndex := filterIndex st;
  baselineNoise := b;
  dynamicScaleFactor := dynamicScaleFactor st;
  rawVolumeHistory := rawVolumeHistory st;
  volumeIndex := volumeIndex st;
  lastCalibration := lastCalibration st;
  peakHistory := peakHistory st;
  peakIndex := peakIndex st;
  peakCount := peakCount st;
  previousVolume := previousVolume st;
  lastUpdate := lastUpdate st
|}.

(** [reads k] is what the [k]-th call of [i2s_read] delivers. *)
Definition calibrationTotals (reads : nat -> Read) : R * Z :=
  fold_left calibrateStep (map reads (seq 0 CALIBRATION_SAMPLES)) (0, 0%Z).

Definition calibrateBaseline (reads : nat -> Read) (st : State)
  : State * list SerialItem :=
  let '(totalNoise, validSamples) := calibrationTotals reads in
  let banner := [PrintlnStr "Calibrating baseline noise level...";
                 PrintlnStr "Please keep quiet for 3 seconds..."] in
  if (0 <? validSamples)%Z then
    let st' := set_baselineNoise (totalNoise / IZR validSamples) st in
    (st', banner ++ [PrintStr "Baseline calibrated to: ";
                     PrintlnFloat (baselineNoise st')])
  else
    (st, banner ++ [PrintlnStr "Calibration failed, using default"]).

(** The part of [setup] that touches the state. *)
Definition setup (reads : nat -> Read) : State :=
  fst (calibrateBaseline reads initial_state).

(** ** Volume-based LED animation *)

(** The value [numLedsToLight] holds when the drawing loop starts. *)
Definition numLedsToLight (smoothVolume : R) : Z :=
  if Rgt_dec smoothVolume (IZR MIN_VOLUME) then
    if Rge_dec smoothVolume (IZR MAX_VOLUME_TARGET * 0.95) then LED_COUNT
    else
      let normalized :=
        (smoothVolume - IZR MIN_VOLUME)
        / (IZR MAX_VOLUME_TARGET - IZR MIN_VOLUME) in
      let normalized := Rpower normalized 0.7 in
      constrainZ (c_round (normalized * IZR LED_COUNT)) 1 LED_COUNT
  else 0%Z.

Definition center : Z := Z.quot LED_COUNT 2.

(** The pixel the [i]-th iteration of the drawing loop addresses. *)
Definition ledIndex (i : Z) : Z :=
  if (Z.rem i 2 =? 0)%Z then (center + Z.quot i 2)%Z
  else (center - 1 - Z.quot i 2)%Z.

Definition Qltb (x y : Q) : bool := negb (Qle_bool y x).

(** The colour of a pixel; the distance from the centre is a quotient of
    two small integers, kept exact as a rational. *)
Definition ledColor (idx : Z) : Z :=
  let distanceFromCenter :=
    (inject_Z (Z.abs (idx - center)) / inject_Z (Z.quot LED_COUNT 2))%Q in
  if Qltb distanceFromCenter 0.33%Q then 0x00FF00%Z
  else if Qltb distanceFromCenter 0.66%Q then 0xFFFF00%Z
  else 0xFF0000%Z.

(** The body of the drawing loop for ordinal [i]. *)
Definition drawLed (frame : list Z) (i : Z) : list Z :=
  let idx := ledIndex i in
  if (0 <=? idx)%Z && (idx <? LED_COUNT)%Z
  then array_set frame idx (ledColor idx)
  else frame.

Definition ordinals (n : Z) : list Z :=
  map Z.of_nat (seq 0 (Z.to_nat n)).

(** The pixel buffer handed to [show()]: cleared, then drawn. *)
Definition drawLeds (n : Z) : list Z :=
  fold_left drawLed (ordinals n) (repeat 0%Z (Z.to_nat LED_COUNT)).

Definition updateLedsByVolume (st : State) : list Z :=
  drawLeds (numLedsToLight (smoothVolume st)).

(** ** The main loop *)

(** [calibratedVolume] after the baseline subtraction and the noise gate. *)
Definition calibratedVolumeOf (rms baseline : R) : R :=
  let calibratedVolume := c_max 0 (rms - baseline) in
  if Rlt_dec calibratedVolume 100 then 0 else calibratedVolume.

(** [rawVolume]: scaled, then constrained to the target range. *)
Definition rawVolumeOf (calibratedVolume scale : R) : R :=
  constrain (calibratedVolume * scale) 0 (IZR MAX_VOLUME_TARGET).

(** The "extra smoothing" step: [volume] after the jump limiter, given the
    moving average [vol] and [previousVolume]. *)
Definition limitJump (previous vol : R) : R :=
  let volumeDelta := Rabs (vol - previous) in
  if Rgt_dec volumeDelta (IZR MAX_VOLUME_TARGET * 0.3)
  then previous + (if Rgt_dec vol previous
                   then IZR MAX_VOLUME_TARGET * 0.05
                   else - IZR MAX_VOLUME_TARGET * 0.05)
  else vol.

Definition SMOOTHING_FACTOR : R := 0.8.

(** The body of [if (validSamples > 0)]. *)
Definition processRms (rms : R) (st : State) : State :=
  let calibratedVolume := calibratedVolumeOf rms (baselineNoise st) in
  let rawVolume := rawVolumeOf calibratedVolume (dynamicScaleFactor st) in
  let volumeFilter' := array_set (volumeFilter st) (filterIndex st) rawVolume in
  let filteredVolume := sumUpTo FILTER_SIZE volumeFilter' in
  let volume' := filteredVolume / IZR FILTER_SIZE in
  let volume'' := limitJump (previousVolume st) volume' in
  {|
    volume := volume'';
    smoothVolume := smoothVolume st * (1 - SMOOTHING_FACTOR)
                    + volume'' * SMOOTHING_FACTOR;
    maxVolume := maxVolume st;
    volumeFilter := volumeFilter';
    filterIndex := Z.rem (filterIndex st + 1) FILTER_SIZE;
    baselineNoise := baselineNoise st;
    dynamicScaleFactor := dynamicScaleFactor st;
    rawVolumeHistory :=
      array_set (rawVolumeHistory st) (volumeIndex st) calibratedVolume;
    volumeIndex := Z.rem (volumeIndex st + 1) VOLUME_SAMPLES;
    lastCalibration := lastCalibration st;
    peakHistory := peakHistory st;
    peakIndex := peakIndex st;
    peakCount := peakCount st;
    previousVolume := volume'';
    lastUpdate := lastUpdate st
  |}.

(** The first half of [loop]: read, extract the envelope, update. *)
Definition acquire (rd : Read) (st : State) : State :=
  match blockRms 100000 rd with
  | Some rms => processRms rms st
  | None => st
  end.

(** The scan of [rawVolumeHistory] for its maximum, from 0. *)
Definition currentMaxDetected (st : State) : R :=
  fold_left (fun m x => if Rgt_dec x m then x else m)
            (firstn (Z.to_nat VOLUME_SAMPLES) (rawVolumeHistory st)) 0.

(** The state when [getAveragePeak] is called: the window's maximum has
    been recorded if it is significant. *)
Definition recordPeak (st : State) : State :=
  let m := currentMaxDetected st in
  if Rgt_dec m (baselineNoise st * 2) then addPeakToHistory m st else st.

(** The body of [if (now - lastCalibration >= CALIBRATION_WINDOW)]. *)
Definition recalibrate (now : Z) (st : State) : State :=
  let st1 := recordPeak st in
  let averagePeak := getAveragePeak st1 in
  let scale' :=
    if Rgt_dec averagePeak 0
    then dynamicScaleFactor st1 * 0.8
         + (IZR MAX_VOLUME_TARGET / averagePeak) * 0.2
    else dynamicScaleFactor st1 in
  {|
    volume := volume st1;
    smoothVolume := smoothVolume st1;
    maxVolume := if Rgt_dec averagePeak 0
                 then averagePeak * scale' else maxVolume st1;
    volumeFilter := volumeFilter st1;
    filterIndex := filterIndex st1;
    baselineNoise := baselineNoise st1;
    dynamicScaleFactor := scale';
    rawVolumeHistory := rawVolumeHistory st1;
    volumeIndex := volumeIndex st1;
    lastCalibration := now;
    peakHistory := peakHistory st1;
    peakIndex := peakIndex st1;
    peakCount := peakCount st1;
    previousVolume := previousVolume st1;
    lastUpdate := lastUpdate st1
  |}.

(** The serial plotter output of one update tick, call by call. *)
Definition plotterOutput (st : State) : list SerialItem :=
  [ PrintStr "MinRange:"; PrintInt (-1000);
    PrintStr "Volume:"; PrintFloat (volume st);
    PrintStr ",SmoothVolume:"; PrintFloat (smoothVolume st);
    PrintStr ",MaxVolume:"; PrintFloat (maxVolume st);
    PrintStr ",MaxRange:"; PrintlnInt 5000 ].

Definition set_lastUpdate (now : Z) (st : State) : State := {|
  volume := volume st;
  smoothVolume := smoothVolume st;
  maxVolume := maxVolume st;
  volumeFilter := volumeFilter st;
  filterIndex := filterIndex st;
  baselineNoise := baselineNoise st;
  dynamicScaleFactor := dynamicScaleFactor st;
  rawVolumeHistory := rawVolumeHistory st;
  volumeIndex := volumeIndex st;
  lastCalibration := lastCalibration st;
  peakHistory := peakHistory st;
  peakIndex := peakIndex st;
  peakCount := peakCount st;
  previousVolume := previousVolume st;
  lastUpdate := now
|}.

(** What one iteration shows to the outside: the pixel buffer pushed by
    [show()], if any, and the serial output. *)
Record Output : Type := mkOutput {
  frame : option (list Z);
  serial : list SerialItem
}.

(** The second half of [loop]: the update tick. *)
Definition update (now : Z) (st : State) : State * Output :=
  if (Int.usub32 now (lastUpdate st) >? UPDATE_INTERVAL)%Z then
    let leds := updateLedsByVolume st in
    let st1 :=
      if (Int.usub32 now (lastCalibration st) >=? CALIBRATION_WINDOW)%Z
      then recalibrate now st else st in
    (set_lastUpdate now st1,
     {| frame := Some leds; serial := plotterOutput st1 |})
  else (st, {| frame := None; serial := [] |}).

(** One iteration of [loop]: [now] is the reading of [millis()], [rd] the
    outcome of [i2s_read].  The closing [ws2812fx.service()] belongs to the
    LED driver and leaves the state alone. *)
Definition loop (now : Z) (rd : Read) (st : State) : State * Output :=
  update now (acquire rd st).

(** Any number of iterations after [setup]. *)
Definition run (inputs : list (Z * Read)) (st : State) : State :=
  fold_left (fun s i => fst (loop (fst i) (snd i) s)) inputs st.

(** ** Rendering the serial output

    [Print::print(double)] is the Arduino core's; it is taken as the
    parameter [fmt].  Integers are printed in decimal and [println] ends
    the line with CR LF. *)

Definition printInt (z : Z) : string := NilEmpty.string_of_int (Z.to_int z).

Definition CRLF : string := String "013" (String "010" EmptyString).

Definition renderItem (fmt : R -> string) (it : SerialItem) : string :=
  match it with
  | PrintStr s => s
  | PrintlnStr s => (s ++ CRLF)%string
  | PrintInt z => printInt z
  | PrintlnInt z => (printInt z ++ CRLF)%string
  | PrintFloat x => fmt x
  | PrintlnFloat x => (fmt x ++ CRLF)%string
  end.

Definition render (fmt : R -> string) (items : list SerialItem) : string :=
  fold_right (fun it s => (renderItem fmt it ++ s)%string) EmptyString items.

(** ** The design document's wording of the stages, for comparison *)

Module Spec.

(** (a) subtract the baseline and clamp to at least 0. *)
Definition subtractBaseline (rms baseline : R) : R := Rmax 0 (rms - baseline).

(** (b) the noise gate: below 100 is forced to 0. *)
Definition noiseGate (x : R) : R := if Rlt_dec x 100 then 0 else x.

(** (d) clamp into [0, MAX_VOLUME_TARGET]. *)
Definition clampToTarget (x : R) : R := Rmax 0 (Rmin x 3000).

(** The raw calibrated volume: the value after (a) and (b). *)
Definition rawCalibrated (rms baseline : R) : R :=
  noiseGate (subtractBaseline rms baseline).

(** (a), (b), (c) multiply by the scale factor, (d). *)
Definition gainNormalizer (rms baseline scale : R) : R :=
  clampToTarget (rawCalibrated rms baseline * scale).

(** The arithmetic mean of a list of values. *)
Definition mean (l : list R) : R :=
  fold_right Rplus 0 l / INR (List.length l).

(** The envelope extractor: shift each sample, discard those whose
    absolute value exceeds the threshold, take the root of the mean
    square of the rest. *)
Definition envelope (threshold : Z) (samples : list Z) : option R :=
  let kept :=
    filter (fun s => (Z.abs s <=? threshold)%Z) (map Int.asr14 samples) in
  match kept with
  | [] => None
  | _ => Some (sqrt (fold_right Rplus 0 (map (fun s => IZR (s * s)) kept)
                     / INR (List.length kept)))
  end.

(** The telemetry line: five key:value pairs, adjacent pairs separated by
    a comma. *)
Definition telemetryLine (fmt : R -> string) (vol smooth maxv : R) : string :=
  ("MinRange:-1000" ++ "," ++ "Volume:" ++ fmt vol ++ ","
   ++ "SmoothVolume:" ++ fmt smooth ++ "," ++ "MaxVolume:" ++ fmt maxv
   ++ "," ++ "MaxRange:5000" ++ CRLF)%string.

End Spec.

(** ** Notions used by the statements *)

(** Well-formed states: the three circular buffers have their sizes and
    their cursors are inside them. *)
Record wf (st : State) : Prop := mkWf {
  wf_filter_len : List.length (volumeFilter st) = Z.to_nat FILTER_SIZE;
  wf_filter_idx : (0 <= filterIndex st < FILTER_SIZE)%Z;
  wf_history_len : List.length (rawVolumeHistory st) = Z.to_nat VOLUME_SAMPLES;
  wf_history_idx : (0 <= volumeIndex st < VOLUME_SAMPLES)%Z;
  wf_peak_len : List.length (peakHistory st) = Z.to_nat PEAK_HISTORY_SIZE;
  wf_peak_idx : (0 <= peakIndex st < PEAK_HISTORY_SIZE)%Z;
  wf_peak_count : (0 <= peakCount st <= PEAK_HISTORY_SIZE)%Z
}.

(** Case analysis on the innermost comparison of two floats in the goal. *)
Ltac case_R :=
  match goal with
  | |- context [if ?c then _ else _] =>
      lazymatch type of c with
      | sumbool _ _ =>
          lazymatch c with
          | context [if _ then _ else _] => fail
          | _ => destruct c
          end
      end
  end.

Ltac cases_R := repeat case_R; try lra.

(** Two states agree on the signal path: the volumes, the moving-average
    window and the volume history, with their cursors. *)
Definition sameSignal (st st' : State) : Prop :=
  volume st' = volume st /\
  smoothVolume st' = smoothVolume st /\
  previousVolume st' = previousVolume st /\
  volumeFilter st' = volumeFilter st /\
  filterIndex st' = filterIndex st /\
  rawVolumeHistory st' = rawVolumeHistory st /\
  volumeIndex st' = volumeIndex st.

(** The shifted samples the loop accumulates. *)
Definition kept (limit : Z) (samples : list Z) : list Z :=
  filter (fun s => (Z.abs s <? limit)%Z) (map Int.asr14 samples).

(** A state whose moving-average window is full of 3000 while the previous
    output is 0. *)
Definition jumpState : State :=
  mkState 0 0 3000 (repeat 3000 5) 0 0 1 (repeat 0 500) 0 0 (repeat 0 10)
          0 0 0 0.

(** The per-block RMS values the calibration obtains, in order. *)
Definition rmsValues (l : list Read) : list R :=
  flat_map (fun rd => match blockRms 50000 rd with
                      | Some rms => [rms]
                      | None => []
                      end) l.

(** Those of the 100 reads of [calibrateBaseline]. *)
Definition calibrationRms (reads : nat -> Read) : list R :=
  rmsValues (map reads (seq 0 CALIBRATION_SAMPLES)).

(** A full block of 64 zero samples. *)
Definition silentRead : Read := mkRead true 256 (repeat 0%Z 64).

(** A failed read. *)
Definition failedRead : Read := mkRead false 0 [].

(** The number of pixels of a buffer that are not black. *)
Definition litCount (frame : list Z) : Z :=
  Z.of_nat (List.length (filter (fun c => negb (c =? 0)%Z) frame)).

(** Settled at 2250: baseline 0, scale 1, the window full of 2250. *)
Definition settledState : State :=
  mkState 2250 2250 3000 (repeat 2250 5) 0 0 1 (repeat 0 500) 0 0
          (repeat 0 10) 0 0 2250 0.

(** A full block of samples whose shifted value is 2250. *)
Definition steadyRead : Read := mkRead true 256 (repeat 36864000%Z 64).

(** A level within the target range. *)
Definition inRange (x : R) : Prop := 0 <= x <= IZR MAX_VOLUME_TARGET.

(** The signal path is within the target range. *)
Record bounded (st : State) : Prop := mkBounded {
  bounded_filter : Forall inRange (volumeFilter st);
  bounded_volume : inRange (volume st);
  bounded_previous : inRange (previousVolume st);
  bounded_smooth : inRange (smoothVolume st)
}.

(** The gain controller's invariant. *)
Record agcOk (st : State) : Prop := mkAgcOk {
  agc_scale_pos : 0 < dynamicScaleFactor st;
  agc_peaks_nonneg : Forall (fun p => 0 <= p) (peakHistory st)
}.

(** [previousVolume] is the moving average of the window. *)
Definition tracking (st : State) : Prop :=
  previousVolume st = sumUpTo FILTER_SIZE (volumeFilter st) / IZR FILTER_SIZE.

(** ** Notions used by the further properties *)

(** Recording a sequence of peaks, oldest first. *)
Definition addPeaks (peaks : list R) (st : State) : State :=
  fold_left (fun s p => addPeakToHistory p s) peaks st.

(** A read that leaves the noise gate closed at baseline [b]: it yields no
    RMS value, or one less than 100 above the baseline. *)
Definition quiet (b : R) (rd : Read) : Prop :=
  match blockRms 100000 rd with
  | Some rms => rms - b < 100
  | None => True
  end.

(** No kept sample of the block has a square beyond [int32_t]. *)
Definition squaresFit (limit : Z) (rd : Read) : Prop :=
  Forall (fun s => (Z.abs s <= 46340)%Z) (kept limit (block rd)).

(** A level the noise gate lets into the volume history: 0, or at least
    100. *)
Definition gated (x : R) : Prop := x = 0 \/ 100 <= x.

(** The state of the gain controller during a run: the recorded peaks are
    the first [peakCount] slots and each is at least 100. *)
Record agcBounded (st : State) : Prop := mkAgcBounded {
  agcb_baseline : 0 <= baselineNoise st;
  agcb_history : Forall gated (rawVolumeHistory st);
  agcb_scale : 0 < dynamicScaleFactor st <= 30;
  agcb_cursor : (peakCount st < PEAK_HISTORY_SIZE ->
                 peakIndex st = peakCount st)%Z;
  agcb_peaks : Forall (fun p => 100 <= p)
                 (firstn (Z.to_nat (peakCount st)) (peakHistory st))
}.

(** A state in which nothing has been heard yet. *)
Record silent (b : R) (st : State) : Prop := mkSilent {
  silent_baseline : baselineNoise st = b;
  silent_filter : Forall (fun x => x = 0) (volumeFilter st);
  silent_history : Forall (fun x => x = 0) (rawVolumeHistory st);
  silent_volume : volume st = 0;
  silent_previous : previousVolume st = 0;
  silent_smooth : smoothVolume st = 0;
  silent_scale : dynamicScaleFactor st = 2;
  silent_count : peakCount st = 0%Z
}.

(** The settled state with [smoothVolume] moved to 0. *)
Definition risingState : State :=
  mkState 2250 0 3000 (repeat 2250 5) 0 0 1 (repeat 0 500) 0 0
          (repeat 0 10) 0 0 2250 0.

(** A read of one sample whose shifted value is 20000. *)
Definition loudRead : Read := mkRead true 4 [327680000%Z].

(** * Properties *)

(** ** Arrays *)

Lemma set_nth_length {A : Type} (l : list A) (n : nat) (x : A) :
  List.length (set_nth l n x) = List.length l.
Proof.
  revert n; induction l as [|h t IH]; intros [|n]; simpl; auto.
Qed.

Lemma set_nth_Forall {A : Type} (P : A -> Prop) (l : list A) (n : nat) (x : A) :
  Forall P l -> P x -> Forall P (set_nth l n x).
Proof.
  intros Hl Hx; revert n.
  induction Hl as [|h t Hh Ht IH]; intros [|n]; simpl; auto.
Qed.

Lemma set_nth_same {A : Type} (d : A) (l : list A) (n : nat) (x : A) :
  (n < List.length l)%nat -> nth n (set_nth l n x) d = x.
Proof.
  revert n; induction l as [|h t IH]; intros [|n] Hn; simpl in *;
    try lia; auto.
  apply IH; lia.
Qed.

Lemma array_set_length {A : Type} (a : list A) (i : Z) (x : A) :
  List.length (array_set a i x) = List.length a.
Proof.
  unfold array_set; destruct (i <? 0)%Z; auto using set_nth_length.
Qed.

Lemma array_set_Forall {A : Type} (P : A -> Prop) (a : list A) (i : Z) (x : A) :
  Forall P a -> P x -> Forall P (array_set a i x).
Proof.
  intros; unfold array_set; destruct (i <? 0)%Z; auto using set_nth_Forall.
Qed.

Lemma array_get_set {A : Type} (d : A) (a : list A) (i : Z) (x : A) :
  (0 <= i < Z.of_nat (List.length a))%Z -> array_get d (array_set a i x) i = x.
Proof.
  intros Hi; unfold array_get, array_set.
  destruct (Z.ltb_spec i 0); [lia|].
  apply set_nth_same; lia.
Qed.

(** ** The float macros *)

Lemma c_max_Rmax (a b : R) : c_max a b = Rmax a b.
Proof.
  unfold c_max, Rmax.
  destruct (Rgt_dec a b), (Rle_dec a b); lra.
Qed.

Lemma constrain_clamp (amt low high : R) :
  low <= high -> constrain amt low high = Rmax low (Rmin amt high).
Proof.
  intros Hlh; unfold constrain, Rmax, Rmin.
  destruct (Rlt_dec amt low), (Rle_dec amt high);
    try destruct (Rgt_dec amt high);
    try destruct (Rle_dec low amt); try destruct (Rle_dec low high); lra.
Qed.

Lemma constrain_range (amt low high : R) :
  low <= high -> low <= constrain amt low high <= high.
Proof.
  intros Hlh; unfold constrain.
  destruct (Rlt_dec amt low); [lra|].
  destruct (Rgt_dec amt high); lra.
Qed.

Lemma calibratedVolumeOf_spec (rms baseline : R) :
  calibratedVolumeOf rms baseline = Spec.rawCalibrated rms baseline.
Proof.
  unfold calibratedVolumeOf, Spec.rawCalibrated, Spec.noiseGate,
    Spec.subtractBaseline.
  now rewrite c_max_Rmax.
Qed.

Lemma calibratedVolumeOf_nonneg (rms baseline : R) :
  0 <= calibratedVolumeOf rms baseline.
Proof.
  unfold calibratedVolumeOf, c_max.
  destruct (Rgt_dec 0 (rms - baseline));
    match goal with |- context [Rlt_dec ?a ?b] => destruct (Rlt_dec a b) end;
    lra.
Qed.

Lemma rawVolumeOf_range (c s : R) : 0 <= rawVolumeOf c s <= 3000.
Proof.
  unfold rawVolumeOf, MAX_VOLUME_TARGET. apply constrain_range; lra.
Qed.

(** ** Every state of a run is well formed *)

Lemma wf_initial_state : wf initial_state.
Proof.
  split; simpl; unfold FILTER_SIZE, VOLUME_SAMPLES, PEAK_HISTORY_SIZE;
    try rewrite repeat_length; try reflexivity; lia.
Qed.

Lemma rem_cursor (i n : Z) : (0 <= i < n)%Z -> (0 <= Z.rem (i + 1) n < n)%Z.
Proof.
  intros Hi. rewrite Z.rem_mod_nonneg by lia.
  apply Z.mod_pos_bound; lia.
Qed.

Lemma wf_processRms (rms : R) (st : State) : wf st -> wf (processRms rms st).
Proof.
  intros [H1 H2 H3 H4 H5 H6 H7]; split; simpl;
    rewrite ?array_set_length; auto using rem_cursor.
Qed.

Lemma wf_acquire (rd : Read) (st : State) : wf st -> wf (acquire rd st).
Proof.
  intros H; unfold acquire; destruct (blockRms 100000 rd);
    auto using wf_processRms.
Qed.

Lemma wf_addPeakToHistory (p : R) (st : State) :
  wf st -> wf (addPeakToHistory p st).
Proof.
  intros [H1 H2 H3 H4 H5 H6 H7]; split; simpl;
    rewrite ?array_set_length; auto using rem_cursor.
  destruct (Z.ltb_spec (peakCount st) PEAK_HISTORY_SIZE); lia.
Qed.

Lemma wf_recordPeak (st : State) : wf st -> wf (recordPeak st).
Proof.
  intros H; unfold recordPeak; destruct (Rgt_dec _ _);
    auto using wf_addPeakToHistory.
Qed.

Lemma wf_recalibrate (now : Z) (st : State) : wf st -> wf (recalibrate now st).
Proof.
  intros H; destruct (wf_recordPeak st H); split; simpl; auto.
Qed.

Lemma wf_update (now : Z) (st : State) : wf st -> wf (fst (update now st)).
Proof.
  intros H; unfold update.
  destruct (_ >? _)%Z; simpl; auto.
  destruct (_ >=? _)%Z;
    [destruct (wf_recalibrate now st H)|destruct H]; split; simpl; auto.
Qed.

Lemma wf_loop (now : Z) (rd : Read) (st : State) :
  wf st -> wf (fst (loop now rd st)).
Proof. intros H; unfold loop; auto using wf_update, wf_acquire. Qed.

Lemma wf_calibrateBaseline (reads : nat -> Read) (st : State) :
  wf st -> wf (fst (calibrateBaseline reads st)).
Proof.
  intros H; unfold calibrateBaseline.
  destruct (calibrationTotals reads) as [t v].
  destruct (0 <? v)%Z; simpl; auto.
  destruct H; split; simpl; auto.
Qed.

Lemma wf_setup (reads : nat -> Read) : wf (setup reads).
Proof. apply wf_calibrateBaseline, wf_initial_state. Qed.

Lemma run_app (xs ys : list (Z * Read)) (st : State) :
  run (xs ++ ys) st = run ys (run xs st).
Proof. unfold run; apply fold_left_app. Qed.

Lemma run_invariant (P : State -> Prop) :
  (forall now rd st, P st -> P (fst (loop now rd st))) ->
  forall inputs st, P st -> P (run inputs st).
Proof.
  intros Hstep inputs; induction inputs as [|[now rd] t IH]; intros st H;
    simpl; [exact H|].
  apply IH, Hstep, H.
Qed.

Lemma wf_run (inputs : list (Z * Read)) (reads : nat -> Read) :
  wf (run inputs (setup reads)).
Proof. apply run_invariant; auto using wf_loop, wf_setup. Qed.

(** ** Sums *)

Lemma fold_left_Rplus (l : list R) (a : R) :
  fold_left Rplus l a = a + fold_right Rplus 0 l.
Proof.
  revert a; induction l as [|h t IH]; intros a; simpl; [lra|].
  rewrite IH; lra.
Qed.

Lemma sum_bounds (lo hi : R) (l : list R) :
  Forall (fun x => lo <= x <= hi) l ->
  lo * INR (List.length l) <= fold_right Rplus 0 l <= hi * INR (List.length l).
Proof.
  induction 1 as [|h t Hh Ht IH].
  - simpl; lra.
  - change (List.length (h :: t)) with (S (List.length t)).
    rewrite S_INR; simpl; lra.
Qed.

(** ** The update tick leaves the signal path alone *)

Lemma sameSignal_refl (st : State) : sameSignal st st.
Proof. repeat split. Qed.

Lemma recordPeak_sameSignal (st : State) : sameSignal st (recordPeak st).
Proof.
  unfold recordPeak; case_R; [repeat split | apply sameSignal_refl].
Qed.

Lemma recalibrate_sameSignal (now : Z) (st : State) :
  sameSignal st (recalibrate now st).
Proof.
  destruct (recordPeak_sameSignal st) as (H1 & H2 & H3 & H4 & H5 & H6 & H7).
  repeat split; simpl; assumption.
Qed.

Lemma update_sameSignal (now : Z) (st : State) :
  sameSignal st (fst (update now st)).
Proof.
  unfold update.
  destruct (_ >? _)%Z; simpl; [|apply sameSignal_refl].
  destruct (_ >=? _)%Z; simpl.
  - destruct (recalibrate_sameSignal now st) as (H1 & H2 & H3 & H4 & H5 & H6 & H7).
    repeat split; simpl; assumption.
  - repeat split.
Qed.

(** ** The envelope loop, as a filter *)

Lemma kept_cons (limit raw : Z) (t : list Z) :
  kept limit (raw :: t) =
  if (Z.abs (Int.asr14 raw) <? limit)%Z
  then Int.asr14 raw :: kept limit t else kept limit t.
Proof. reflexivity. Qed.

Lemma accumulate_fold (limit : Z) (samples : list Z) (acc : R * Z) :
  fold_left (accumulate limit) samples acc =
  (fst acc + fold_right Rplus 0
               (map (fun s => IZR (Int.mul32 s s)) (kept limit samples)),
   (snd acc + Z.of_nat (List.length (kept limit samples)))%Z).
Proof.
  revert acc; induction samples as [|raw t IH]; intros [s n].
  - simpl; f_equal; [lra | lia].
  - cbn [fold_left]. rewrite IH, kept_cons. unfold accumulate.
    destruct (Z.abs (Int.asr14 raw) <? limit)%Z; cbn [fst snd];
      [|reflexivity].
    cbn [map fold_right List.length].
    f_equal; [lra | lia].
Qed.

Lemma sumSquares_kept (limit : Z) (samples : list Z) :
  sumSquares limit samples =
  (fold_right Rplus 0 (map (fun s => IZR (Int.mul32 s s)) (kept limit samples)),
   Z.of_nat (List.length (kept limit samples))).
Proof.
  unfold sumSquares; rewrite accumulate_fold; cbn [fst snd].
  f_equal; lra.
Qed.

Lemma kept_all_rejected (limit : Z) (samples : list Z) :
  Forall (fun raw => (limit <= Z.abs (Int.asr14 raw))%Z) samples ->
  kept limit samples = [].
Proof.
  induction 1 as [|raw t Hraw Ht IH]; [reflexivity|].
  unfold kept in *; cbn [map filter].
  destruct (Z.ltb_spec (Z.abs (Int.asr14 raw)) limit); [lia | exact IH].
Qed.

Lemma blockRms_none (limit : Z) (rd : Read) :
  result_ok rd = false \/ bytesIn rd = 0%Z \/
  Forall (fun raw => (limit <= Z.abs (Int.asr14 raw))%Z) (block rd) ->
  blockRms limit rd = None.
Proof.
  intros [H | [H | H]]; unfold blockRms.
  - rewrite H; reflexivity.
  - rewrite H, andb_false_r; reflexivity.
  - destruct (result_ok rd && (0 <? bytesIn rd)%Z); [|reflexivity].
    rewrite sumSquares_kept, (kept_all_rejected _ _ H); reflexivity.
Qed.

(** ** The gain normalizer *)

(** C1. For every RMS input, baseline and scale factor (in particular for a
    baseline at least 0 and a positive scale factor) the gain normalizer
    computes, in this order, (a) [max(0, rms - baselineNoise)], (b) the noise
    gate forcing values below 100 to 0, (c) the product with
    [dynamicScaleFactor], (d) the clamp into [0, 3000]; its output lies in
    [0, MAX_VOLUME_TARGET]; and in a cycle that obtains an RMS value the
    slot of [rawVolumeHistory] under the cursor receives the value after
    (a) and (b), before the scaling, while the slot of the moving-average
    window under its cursor receives the normalizer's output. *)
Theorem gain_normalizer_order_and_range :
  forall rms baseline scale : R,
    calibratedVolumeOf rms baseline = Spec.rawCalibrated rms baseline /\
    rawVolumeOf (calibratedVolumeOf rms baseline) scale
    = Spec.gainNormalizer rms baseline scale /\
    0 <= rawVolumeOf (calibratedVolumeOf rms baseline) scale
      <= IZR MAX_VOLUME_TARGET /\
    forall (now : Z) (rd : Read) (st : State),
      wf st ->
      baselineNoise st = baseline ->
      dynamicScaleFactor st = scale ->
      blockRms 100000 rd = Some rms ->
      let st' := fst (loop now rd st) in
      array_get 0 (rawVolumeHistory st') (volumeIndex st)
      = Spec.rawCalibrated rms baseline /\
      array_get 0 (volumeFilter st') (filterIndex st)
      = Spec.gainNormalizer rms baseline scale.
Proof.
  intros rms baseline scale.
  assert (Hg : rawVolumeOf (calibratedVolumeOf rms baseline) scale
               = Spec.gainNormalizer rms baseline scale).
  { unfold rawVolumeOf, Spec.gainNormalizer, Spec.clampToTarget,
      MAX_VOLUME_TARGET.
    rewrite constrain_clamp, calibratedVolumeOf_spec by lra; reflexivity. }
  split; [apply calibratedVolumeOf_spec|].
  split; [exact Hg|].
  split; [apply rawVolumeOf_range|].
  intros now rd st Hwf Hb Hs Hrms st'; subst st'; unfold loop.
  destruct (update_sameSignal now (acquire rd st))
    as (_ & _ & _ & Hf & _ & Hh & _).
  rewrite Hf, Hh; unfold acquire; rewrite Hrms.
  cbn [processRms rawVolumeHistory volumeFilter].
  rewrite Hb, Hs, !array_get_set, Hg, calibratedVolumeOf_spec.
  - split; reflexivity.
  - destruct Hwf; unfold FILTER_SIZE in *; lia.
  - destruct Hwf; unfold VOLUME_SAMPLES in *; lia.
Qed.

(** One sample of shifted value 2250 read at power-on. *)
Lemma gain_normalizer_order_and_range_witness :
  let rd := mkRead true 4 [36864000%Z] in
  let rms := sqrt ((0 + 5062500) / 1) in
  let st' := fst (loop 0 rd initial_state) in
  wf initial_state /\
  blockRms 100000 rd = Some rms /\
  array_get 0 (rawVolumeHistory st') 0 = Spec.rawCalibrated rms 15000 /\
  array_get 0 (volumeFilter st') 0 = Spec.gainNormalizer rms 15000 2.
Proof.
  intros rd rms st'.
  split; [exact wf_initial_state|].
  split; [reflexivity|].
  apply (proj2 (proj2 (proj2 (gain_normalizer_order_and_range rms 15000 2)))
           0%Z rd initial_state);
    [exact wf_initial_state | reflexivity | reflexivity | reflexivity].
Defined.

(** ** The jump limiter *)

Lemma limitJump_step (previous vol : R) :
  Rabs (vol - previous) > 900 ->
  (vol > previous -> limitJump previous vol = previous + 150) /\
  (vol < previous -> limitJump previous vol = previous - 150) /\
  Rabs (limitJump previous vol - previous) = 150.
Proof.
  intros H; unfold limitJump, MAX_VOLUME_TARGET.
  destruct (Rgt_dec (Rabs (vol - previous)) (3000 * 0.3)) as [_|N]; [|lra].
  destruct (Rgt_dec vol previous) as [G|G].
  - repeat split; intros; try lra.
    replace (previous + 3000 * 0.05 - previous) with 150 by lra.
    apply Rabs_pos_eq; lra.
  - repeat split; intros; try lra.
    replace (previous + - (3000) * 0.05 - previous) with (- (150)) by lra.
    rewrite Rabs_Ropp; apply Rabs_pos_eq; lra.
Qed.

(** C3. In every cycle that obtains an RMS value and whose moving-average
    output differs from [previousVolume] (the previous cycle's volume after
    the limiter, before the exponential average) by more than 30% of
    MAX_VOLUME_TARGET (900), the limiter replaces the moving-average output
    by [previousVolume] plus 150 when the average is above it and minus 150
    when it is below; the change of the limiter's output against the
    previous cycle is then exactly 150, hence at most 150, in magnitude. *)
Theorem rate_limiter_step :
  forall (now : Z) (rd : Read) (rms : R) (st : State),
    blockRms 100000 rd = Some rms ->
    let st' := fst (loop now rd st) in
    let average := sumUpTo FILTER_SIZE (volumeFilter st') / IZR FILTER_SIZE in
    Rabs (average - previousVolume st) > 0.3 * IZR MAX_VOLUME_TARGET ->
    (average > previousVolume st -> volume st' = previousVolume st + 150) /\
    (average < previousVolume st -> volume st' = previousVolume st - 150) /\
    Rabs (volume st' - previousVolume st) = 0.05 * IZR MAX_VOLUME_TARGET /\
    Rabs (volume st' - previousVolume st) <= 150 /\
    previousVolume st' = volume st'.
Proof.
  intros now rd rms st Hrms st' average; subst st' average; unfold loop.
  destruct (update_sameSignal now (acquire rd st))
    as (Hv & _ & Hp & Hf & _).
  rewrite Hv, Hp, Hf; unfold acquire; rewrite Hrms.
  cbn [processRms volume previousVolume volumeFilter].
  unfold MAX_VOLUME_TARGET at 1; intros Hjump.
  match goal with |- context [limitJump ?p ?v] =>
    destruct (limitJump_step p v) as (Hup & Hdown & Habs); [lra|]
  end.
  rewrite Habs; unfold MAX_VOLUME_TARGET.
  repeat split; auto; lra.
Qed.

Lemma rate_limiter_step_witness :
  let rd := mkRead true 4 [36864000%Z] in
  let rms := sqrt ((0 + 5062500) / 1) in
  let st' := fst (loop 0 rd jumpState) in
  blockRms 100000 rd = Some rms /\
  volume st' = 0 + 150 /\
  Rabs (volume st' - 0) <= 150.
Proof.
  intros rd rms st'.
  split; [reflexivity|].
  assert (Havg :
    2400 <= sumUpTo FILTER_SIZE (volumeFilter st') / IZR FILTER_SIZE).
  { subst st'; unfold loop.
    destruct (update_sameSignal 0 (acquire rd jumpState))
      as (_ & _ & _ & Hf & _).
    rewrite Hf.
    change (acquire rd jumpState) with (processRms rms jumpState).
    cbn [processRms volumeFilter jumpState previousVolume filterIndex
         baselineNoise dynamicScaleFactor].
    pose proof (rawVolumeOf_range (calibratedVolumeOf rms 0) 1) as Hr.
    unfold sumUpTo, FILTER_SIZE; simpl; lra. }
  assert (Hjump :
    Rabs (sumUpTo FILTER_SIZE (volumeFilter st') / IZR FILTER_SIZE
          - previousVolume jumpState) > 0.3 * IZR MAX_VOLUME_TARGET).
  { unfold MAX_VOLUME_TARGET; simpl (previousVolume jumpState).
    rewrite Rabs_pos_eq; lra. }
  destruct (rate_limiter_step 0 rd rms jumpState eq_refl Hjump)
    as (Hup & _ & _ & Hle & _).
  split; [|exact Hle].
  apply Hup; unfold st' in Havg; simpl (previousVolume jumpState); lra.
Defined.

(** ** Cycles without a valid sample *)

(** C4. In every cycle in which the read fails, or delivers zero bytes, or
    every sample of the block is rejected by the spike filter (no valid
    sample), the state of the signal path is left as it was: [volume],
    [smoothVolume], [previousVolume], the moving-average window and its
    cursor, and the volume history and its cursor. *)
Theorem failed_cycle_keeps_state :
  forall (now : Z) (rd : Read) (st : State),
    result_ok rd = false \/ bytesIn rd = 0%Z \/
    Forall (fun raw => (100000 <= Z.abs (Int.asr14 raw))%Z) (block rd) ->
    let st' := fst (loop now rd st) in
    volume st' = volume st /\
    smoothVolume st' = smoothVolume st /\
    previousVolume st' = previousVolume st /\
    volumeFilter st' = volumeFilter st /\
    filterIndex st' = filterIndex st /\
    rawVolumeHistory st' = rawVolumeHistory st /\
    volumeIndex st' = volumeIndex st.
Proof.
  intros now rd st H st'; subst st'; unfold loop, acquire.
  rewrite (blockRms_none 100000 rd H).
  apply update_sameSignal.
Qed.

(** A block holding one spike, at an update tick. *)
Lemma failed_cycle_keeps_state_witness :
  let rd := mkRead true 4 [2147483647%Z] in
  let st' := fst (loop 6 rd initial_state) in
  Forall (fun raw => (100000 <= Z.abs (Int.asr14 raw))%Z) (block rd) /\
  volume st' = 0 /\ smoothVolume st' = 0 /\ previousVolume st' = 0 /\
  volumeFilter st' = repeat 0 5 /\ filterIndex st' = 0%Z /\
  rawVolumeHistory st' = repeat 0 500 /\ volumeIndex st' = 0%Z.
Proof.
  intros rd st'.
  assert (H : Forall (fun raw => (100000 <= Z.abs (Int.asr14 raw))%Z)
                     (block rd)).
  { repeat constructor. vm_compute. discriminate. }
  split; [exact H|].
  exact (failed_cycle_keeps_state 6 rd initial_state (or_intror (or_intror H))).
Defined.

(** ** Baseline calibration *)

Lemma calibrateStep_fold (l : list Read) (acc : R * Z) :
  fold_left calibrateStep l acc =
  (fst acc + fold_right Rplus 0 (rmsValues l),
   (snd acc + Z.of_nat (List.length (rmsValues l)))%Z).
Proof.
  revert acc; induction l as [|rd t IH]; intros [s n].
  - simpl; f_equal; [lra | lia].
  - cbn [fold_left]; rewrite IH; unfold calibrateStep, rmsValues.
    cbn [flat_map]; destruct (blockRms 50000 rd) as [rms|];
      cbn [fst snd app]; [|reflexivity].
    cbn [fold_right List.length]; f_equal; [lra | lia].
Qed.

Lemma calibrationTotals_rms (reads : nat -> Read) :
  calibrationTotals reads =
  (fold_right Rplus 0 (calibrationRms reads),
   Z.of_nat (List.length (calibrationRms reads))).
Proof.
  unfold calibrationTotals; rewrite calibrateStep_fold; cbn [fst snd].
  unfold calibrationRms; f_equal; lra.
Qed.

Lemma calibrateBaseline_baseline (reads : nat -> Read) (st : State) :
  baselineNoise (fst (calibrateBaseline reads st)) =
  match calibrationRms reads with
  | [] => baselineNoise st
  | _ => Spec.mean (calibrationRms reads)
  end.
Proof.
  unfold calibrateBaseline; rewrite calibrationTotals_rms.
  destruct (calibrationRms reads) as [|r rs]; [reflexivity|].
  destruct (Z.ltb_spec 0 (Z.of_nat (List.length (r :: rs))));
    [|simpl in *; lia].
  cbn [fst set_baselineNoise baselineNoise]; unfold Spec.mean.
  now rewrite <- INR_IZR_INZ.
Qed.

Lemma sum_repeat_0 (n : nat) : fold_right Rplus 0 (repeat 0 n) = 0.
Proof. induction n as [|n IH]; simpl; [reflexivity | rewrite IH; lra]. Qed.

Lemma blockRms_silentRead : blockRms 50000 silentRead = Some 0.
Proof.
  unfold blockRms; cbn [silentRead result_ok bytesIn andb Z.ltb Z.compare].
  rewrite sumSquares_kept.
  change (kept 50000 (block silentRead)) with (repeat 0%Z 64).
  change (map (fun s => IZR (Int.mul32 s s)) (repeat 0%Z 64))
    with (repeat 0 64).
  rewrite sum_repeat_0; cbn [Z.ltb Z.compare Z.of_nat List.length repeat].
  change (Z.of_nat (List.length (repeat 0%Z 64))) with 64%Z.
  cbn [Z.ltb Z.compare].
  unfold Rdiv; now rewrite Rmult_0_l, sqrt_0.
Qed.

Lemma rmsValues_constant (v : R) (l : list Read) :
  Forall (fun rd => blockRms 50000 rd = Some v) l ->
  rmsValues l = repeat v (List.length l).
Proof.
  induction 1 as [|rd t Hrd Ht IH]; [reflexivity|].
  unfold rmsValues in *; cbn [flat_map]; rewrite Hrd, IH; reflexivity.
Qed.

Lemma calibrationRms_silent :
  calibrationRms (fun _ => silentRead) = repeat 0 100.
Proof.
  unfold calibrationRms.
  rewrite (rmsValues_constant 0).
  - now rewrite length_map, length_seq.
  - apply Forall_forall; intros rd Hrd.
    apply in_map_iff in Hrd; destruct Hrd as (k & <- & _).
    exact blockRms_silentRead.
Qed.

(** C5. After the calibration over 100 sample blocks: if no block yielded
    an RMS value, [baselineNoise] keeps the value it had, which at power-on
    is the compiled-in 15000 (so it is not 0); if at least one block yielded
    an RMS value, [baselineNoise] is the arithmetic mean of the per-block
    RMS values, whatever that mean is.  In particular 100 blocks of zero
    samples (a silent room) give [baselineNoise] = 0, not the default. *)
Theorem calibration_baseline :
  forall reads : nat -> Read,
    (calibrationRms reads = [] ->
     baselineNoise (setup reads) = 15000 /\ baselineNoise (setup reads) <> 0) /\
    (calibrationRms reads <> [] ->
     baselineNoise (setup reads) = Spec.mean (calibrationRms reads)) /\
    (forall st : State,
       baselineNoise (fst (calibrateBaseline reads st)) =
       match calibrationRms reads with
       | [] => baselineNoise st
       | _ => Spec.mean (calibrationRms reads)
       end) /\
    List.length (calibrationRms (fun _ => silentRead)) = 100%nat /\
    baselineNoise (setup (fun _ => silentRead)) = 0.
Proof.
  intros reads; unfold setup.
  split; [|split; [|split; [|split]]].
  - intros H; rewrite calibrateBaseline_baseline, H.
    cbn [initial_state baselineNoise]; split; lra.
  - intros H; rewrite calibrateBaseline_baseline.
    destruct (calibrationRms reads); [contradiction | reflexivity].
  - intros st; apply calibrateBaseline_baseline.
  - rewrite calibrationRms_silent; apply repeat_length.
  - rewrite calibrateBaseline_baseline, calibrationRms_silent.
    assert (Hm : Spec.mean (repeat 0 100) = 0).
    { unfold Spec.mean, Rdiv; rewrite sum_repeat_0; apply Rmult_0_l. }
    exact Hm.
Qed.

(** One failed calibration (every read fails) and one silent room. *)
Lemma calibration_baseline_witness :
  (calibrationRms (fun _ => failedRead) = [] /\
   baselineNoise (setup (fun _ => failedRead)) = 15000) /\
  (calibrationRms (fun _ => silentRead) <> [] /\
   baselineNoise (setup (fun _ => silentRead))
   = Spec.mean (calibrationRms (fun _ => silentRead))).
Proof.
  split.
  - split; [reflexivity|].
    exact (proj1 (proj1 (calibration_baseline (fun _ => failedRead)) eq_refl)).
  - assert (H : calibrationRms (fun _ => silentRead) <> []).
    { rewrite calibrationRms_silent; discriminate. }
    split; [exact H|].
    exact (proj1 (proj2 (calibration_baseline (fun _ => silentRead))) H).
Defined.

(** ** The envelope extractor *)

Lemma asr14_floor (x : Z) : Int.asr14 x = (x / 16384)%Z.
Proof. unfold Int.asr14; now rewrite Z.shiftr_div_pow2 by lia. Qed.

Lemma mul32_exact (s : Z) :
  (Z.abs s <= 46340)%Z -> Int.mul32 s s = (s * s)%Z.
Proof.
  intros Hs; unfold Int.mul32, Int.to_int32, Int.wrap.
  assert (0 <= s * s <= 2147395600)%Z by nia.
  change (2 ^ (32 - 1))%Z with 2147483648%Z.
  change (2 ^ 32)%Z with 4294967296%Z.
  rewrite Z.mod_small; lia.
Qed.

Lemma squares_exact (ks : list Z) :
  Forall (fun s => (Z.abs s <= 46340)%Z) ks ->
  map (fun s => IZR (Int.mul32 s s)) ks = map (fun s => IZR (s * s)) ks.
Proof.
  induction 1 as [|s t Hs Ht IH]; [reflexivity|].
  cbn [map]; now rewrite IH, mul32_exact.
Qed.

(** The [int32_t] product wraps for a sample the spike filter lets through. *)
Remark square_wraps : Int.mul32 50000 50000 = (-1794967296)%Z.
Proof. reflexivity. Qed.

(** C8, as stated, fails on the code: a sample whose shifted value is
    exactly the threshold 100000 is discarded by [loop], not accumulated.
    The block holding that single sample yields no RMS value, where the
    extractor of the design document yields one. *)
Lemma envelope_threshold_counterexample :
  let rd := mkRead true 4 [1638400000%Z] in
  Z.abs (Int.asr14 1638400000) = 100000%Z /\
  sumSquares 100000 (block rd) = (0, 0%Z) /\
  blockRms 100000 rd = None /\
  Spec.envelope 100000 (block rd)
  = Some (sqrt ((IZR (100000 * 100000) + 0) / INR 1)) /\
  blockRms 100000 rd <> Spec.envelope 100000 (block rd).
Proof.
  intros rd.
  assert (Hc : blockRms 100000 rd = None) by reflexivity.
  assert (Hs : Spec.envelope 100000 (block rd)
               = Some (sqrt ((IZR (100000 * 100000) + 0) / INR 1)))
    by reflexivity.
  repeat split; try reflexivity.
  rewrite Hc, Hs; discriminate.
Qed.

(** C8 (amended). For every sample block the envelope extractor shifts each
    sample right by 14 bits (arithmetically: the floor of the quotient by
    2^14) and keeps exactly the shifted samples whose absolute value is
    strictly below the bound, 100000 in [loop] and 50000 in
    [calibrateBaseline]: every such sample raises the valid count by one,
    every other sample, also one whose absolute value equals the bound,
    leaves sum and count as they are, so that for every block the valid
    count is the number of shifted samples below the bound and, after a
    successful read of at least one byte, there is a result exactly when
    that number is not 0.  A kept sample of absolute value at most 46340
    (its square fits an [int32_t]) adds its square to the sum; when every
    kept sample of the block is such, the result is the square root of the
    sum of the squares of the kept samples over their number. *)
Theorem envelope_extractor :
  forall (limit : Z) (rd : Read),
    let ks :=
      filter (fun s => (Z.abs s <? limit)%Z) (map Int.asr14 (block rd)) in
    (forall x : Z, Int.asr14 x = (x / 2 ^ 14)%Z) /\
    (forall s : Z, In s ks <->
                   In s (map Int.asr14 (block rd)) /\ (Z.abs s < limit)%Z) /\
    (forall raw : Z, Z.abs (Int.asr14 raw) = limit ->
                     accumulate limit (0, 0%Z) raw = (0, 0%Z)) /\
    (forall st : State,
       acquire rd st = match blockRms 100000 rd with
                       | Some rms => processRms rms st
                       | None => st
                       end) /\
    (forall acc : R * Z,
       calibrateStep acc rd = match blockRms 50000 rd with
                              | Some rms => (fst acc + rms, (snd acc + 1)%Z)
                              | None => acc
                              end) /\
    (result_ok rd = true -> (0 < bytesIn rd)%Z ->
     Forall (fun s => (Z.abs s <= 46340)%Z) ks ->
     blockRms limit rd =
     match ks with
     | [] => None
     | _ => Some (sqrt (fold_right Rplus 0 (map (fun s => IZR (s * s)) ks)
                        / INR (List.length ks)))
     end) /\
    (forall (acc : R * Z) (raw : Z),
       ((Z.abs (Int.asr14 raw) < limit)%Z ->
        snd (accumulate limit acc raw) = (snd acc + 1)%Z) /\
       ((limit <= Z.abs (Int.asr14 raw))%Z ->
        accumulate limit acc raw = acc) /\
       ((Z.abs (Int.asr14 raw) < limit)%Z ->
        (Z.abs (Int.asr14 raw) <= 46340)%Z ->
        fst (accumulate limit acc raw)
        = fst acc + IZR (Int.asr14 raw * Int.asr14 raw))) /\
    snd (sumSquares limit (block rd)) = Z.of_nat (List.length ks) /\
    (result_ok rd = true -> (0 < bytesIn rd)%Z ->
     (blockRms limit rd = None <-> ks = [])) /\
    (result_ok rd = false \/ (bytesIn rd <= 0)%Z -> blockRms limit rd = None).
Proof.
  intros limit rd ks.
  split; [intros x; apply asr14_floor|].
  split.
  { intros s; unfold ks; rewrite filter_In, Z.ltb_lt; reflexivity. }
  split.
  { intros raw Hraw; unfold accumulate.
    destruct (Z.ltb_spec (Z.abs (Int.asr14 raw)) limit); [lia | reflexivity]. }
  split; [reflexivity|].
  split; [reflexivity|].
  split.
  { intros Hok Hbytes Hfit; unfold blockRms.
    rewrite Hok; apply Z.ltb_lt in Hbytes; rewrite Hbytes; cbn [andb].
    rewrite sumSquares_kept; fold ks in Hfit |- *.
    change (kept limit (block rd)) with ks.
    rewrite (squares_exact ks Hfit).
    destruct ks as [|k ks']; [reflexivity|].
    destruct (Z.ltb_spec 0 (Z.of_nat (List.length (k :: ks'))));
      [|simpl in *; lia].
    now rewrite <- INR_IZR_INZ. }
  split.
  { intros acc raw; unfold accumulate.
    destruct (Z.ltb_spec (Z.abs (Int.asr14 raw)) limit) as [Hlt | Hge].
    - split; [reflexivity|].
      split; [lia|].
      intros _ Hfit; cbn [fst]; now rewrite mul32_exact.
    - split; [lia|]; split; [reflexivity | lia]. }
  split.
  { rewrite sumSquares_kept; reflexivity. }
  split.
  { intros Hok Hbytes; unfold blockRms.
    rewrite Hok; apply Z.ltb_lt in Hbytes; rewrite Hbytes; cbn [andb].
    rewrite sumSquares_kept; change (kept limit (block rd)) with ks.
    destruct ks as [|k ks']; cbn [snd List.length Z.of_nat Z.ltb Z.compare].
    - split; reflexivity.
    - split; discriminate. }
  intros [Hbad | Hbad]; unfold blockRms.
  - rewrite Hbad; reflexivity.
  - destruct (Z.ltb_spec 0 (bytesIn rd)); [lia|].
    rewrite andb_false_r; reflexivity.
Qed.

(** A block of three samples: 2250 after the shift, a spike at the bound,
    and 50000, whose square does not fit. *)
Lemma envelope_extractor_witness :
  let rd := mkRead true 12 [36864000%Z; 1638400000%Z; 819200000%Z] in
  let ok := mkRead true 8 [36864000%Z; 1638400000%Z] in
  In 2250%Z (map Int.asr14 (block rd)) /\
  In 2250%Z (filter (fun s => (Z.abs s <? 100000)%Z)
                    (map Int.asr14 (block rd))) /\
  accumulate 100000 (0, 0%Z) 1638400000 = (0, 0%Z) /\
  blockRms 100000 ok = Some (sqrt ((IZR (2250 * 2250) + 0) / INR 1)) /\
  snd (accumulate 100000 (0, 0%Z) 819200000) = (0 + 1)%Z /\
  fst (accumulate 100000 (0, 0%Z) 36864000) = 0 + IZR (2250 * 2250) /\
  snd (sumSquares 100000 (block rd)) = 2%Z /\
  blockRms 100000 rd <> None /\
  blockRms 100000 (mkRead false 12 [36864000%Z]) = None.
Proof.
  intros rd ok.
  pose proof (envelope_extractor 100000 rd)
    as (_ & Hin & Heq & _ & _ & _ & Hacc & Hcount & Hnone & _).
  pose proof (envelope_extractor 100000 ok)
    as (_ & _ & _ & _ & _ & Hrms & _).
  pose proof (envelope_extractor 100000 (mkRead false 12 [36864000%Z]))
    as (_ & _ & _ & _ & _ & _ & _ & _ & _ & Hfail).
  assert (H1 : In 2250%Z (map Int.asr14 (block rd))) by (left; reflexivity).
  split; [exact H1|].
  split; [apply Hin; split; [exact H1 | reflexivity]|].
  split; [apply Heq; reflexivity|].
  split.
  { apply Hrms; [reflexivity | reflexivity|].
    repeat constructor; vm_compute; discriminate. }
  split; [apply (proj1 (Hacc (0, 0%Z) 819200000%Z)); reflexivity|].
  split.
  { apply (proj2 (proj2 (Hacc (0, 0%Z) 36864000%Z))); [reflexivity|].
    vm_compute; discriminate. }
  split; [exact Hcount|].
  split.
  { intros Hn; apply (Hnone eq_refl eq_refl) in Hn; discriminate Hn. }
  apply Hfail; left; reflexivity.
Defined.

(** ** Telemetry *)

(** C9 fails on the code: the line of an update tick has no comma between
    the pair [MinRange:-1000] and the pair [Volume:...]; the text printed
    before the volume is ["Volume:"] where the three later keys are printed
    with their leading comma.  For every rendering of floats and every
    state the line is the one below, and it differs from the line of the
    design document; so does the line of the first update tick after
    power-on. *)
Theorem plotter_line_misses_comma :
  forall (fmt : R -> string) (st : State),
    render fmt (plotterOutput st) =
    ("MinRange:-1000Volume:" ++ fmt (volume st)
     ++ ",SmoothVolume:" ++ fmt (smoothVolume st)
     ++ ",MaxVolume:" ++ fmt (maxVolume st)
     ++ ",MaxRange:5000" ++ CRLF)%string /\
    render fmt (plotterOutput st)
    <> Spec.telemetryLine fmt (volume st) (smoothVolume st) (maxVolume st) /\
    render fmt (serial (snd (loop 6 failedRead initial_state))) =
    ("MinRange:-1000Volume:" ++ fmt 0 ++ ",SmoothVolume:" ++ fmt 0
     ++ ",MaxVolume:" ++ fmt 3000 ++ ",MaxRange:5000" ++ CRLF)%string.
Proof.
  intros fmt st; split; [reflexivity|split; [|reflexivity]].
  cbn; intros H; discriminate H.
Qed.

(** ** The level-to-light mapper *)

Lemma Int_part_le (x y : R) : x <= y -> (Int_part x <= Int_part y)%Z.
Proof.
  intros Hxy.
  destruct (base_Int_part x) as [Hx _], (base_Int_part y) as [_ Hy].
  assert (H : IZR (Int_part x) < IZR (Int_part y + 1)).
  { rewrite plus_IZR; lra. }
  apply lt_IZR in H; lia.
Qed.

Lemma c_round_le (x y : R) : 0 <= x -> x <= y -> (c_round x <= c_round y)%Z.
Proof.
  intros Hx Hxy; unfold c_round.
  destruct (Rle_dec 0 x); [|lra].
  destruct (Rle_dec 0 y); [|lra].
  apply Int_part_le; lra.
Qed.

Lemma constrainZ_le (a b lo hi : Z) :
  (lo <= hi)%Z -> (a <= b)%Z ->
  (constrainZ a lo hi <= constrainZ b lo hi)%Z.
Proof.
  intros Hlh Hab; unfold constrainZ.
  destruct (Z.ltb_spec a lo), (Z.ltb_spec b lo);
    destruct (Z.gtb_spec a hi), (Z.gtb_spec b hi); lia.
Qed.

Lemma constrainZ_range (a lo hi : Z) :
  (lo <= hi)%Z -> (lo <= constrainZ a lo hi <= hi)%Z.
Proof.
  intros Hlh; unfold constrainZ.
  destruct (Z.ltb_spec a lo); [lia|].
  destruct (Z.gtb_spec a hi); lia.
Qed.

Lemma numLedsToLight_range (v : R) : (0 <= numLedsToLight v <= LED_COUNT)%Z.
Proof.
  unfold numLedsToLight, LED_COUNT.
  destruct (Rgt_dec v (IZR MIN_VOLUME)); [|lia].
  destruct (Rge_dec v (IZR MAX_VOLUME_TARGET * 0.95)); [lia|].
  match goal with |- context [constrainZ ?a 1 60] =>
    pose proof (constrainZ_range a 1 60)
  end; lia.
Qed.

Lemma ordinals_In (n i : Z) : (0 <= i < n)%Z -> In i (ordinals n).
Proof.
  intros Hi; unfold ordinals.
  apply in_map_iff; exists (Z.to_nat i); split; [lia|].
  apply in_seq; lia.
Qed.

Lemma drawLeds_litCount (n : Z) :
  (0 <= n <= LED_COUNT)%Z -> litCount (drawLeds n) = n.
Proof.
  intros Hn.
  assert (H : forallb (fun k => (litCount (drawLeds k) =? k)%Z) (ordinals 61)
              = true) by (vm_compute; reflexivity).
  rewrite forallb_forall in H.
  apply Z.eqb_eq, H, ordinals_In; unfold LED_COUNT in Hn; lia.
Qed.

(** C6. The mapper lights no pixel at [smoothVolume] 0 and at every
    [smoothVolume] up to MIN_VOLUME = 1500; it lights all 60 pixels at
    MAX_VOLUME_TARGET = 3000 and at every [smoothVolume] from
    0.95 * 3000 = 2850 on; above MIN_VOLUME the number of lit pixels does not
    decrease when [smoothVolume] grows.  The number is the one the drawing
    loop runs to, and that many pixels of the buffer are lit. *)
Theorem lit_pixel_count :
  numLedsToLight 0 = 0%Z /\
  (forall v : R, v <= IZR MIN_VOLUME -> numLedsToLight v = 0%Z) /\
  numLedsToLight (IZR MAX_VOLUME_TARGET) = LED_COUNT /\
  (forall v : R, v >= 0.95 * IZR MAX_VOLUME_TARGET ->
                 numLedsToLight v = LED_COUNT) /\
  (forall a b : R, IZR MIN_VOLUME < a -> a <= b ->
                   (numLedsToLight a <= numLedsToLight b)%Z) /\
  (forall st : State,
     litCount (updateLedsByVolume st) = numLedsToLight (smoothVolume st)).
Proof.
  assert (Hlow : forall v, v <= IZR MIN_VOLUME -> numLedsToLight v = 0%Z).
  { intros v Hv; unfold numLedsToLight.
    destruct (Rgt_dec v (IZR MIN_VOLUME)); [lra | reflexivity]. }
  assert (Hhigh : forall v, v >= 0.95 * IZR MAX_VOLUME_TARGET ->
                            numLedsToLight v = LED_COUNT).
  { intros v; unfold numLedsToLight, MIN_VOLUME, MAX_VOLUME_TARGET; intros Hv.
    destruct (Rgt_dec v 1500); [|lra].
    destruct (Rge_dec v (3000 * 0.95)); [reflexivity | lra]. }
  split; [apply Hlow; unfold MIN_VOLUME; lra|].
  split; [exact Hlow|].
  split; [apply Hhigh; unfold MAX_VOLUME_TARGET; lra|].
  split; [exact Hhigh|].
  split.
  - intros a b Ha Hab.
    destruct (Rge_dec b (IZR MAX_VOLUME_TARGET * 0.95)) as [Hb|Hb].
    + rewrite (Hhigh b) by lra. apply numLedsToLight_range.
    + unfold numLedsToLight.
      destruct (Rgt_dec a (IZR MIN_VOLUME)); [|lra].
      destruct (Rgt_dec b (IZR MIN_VOLUME)); [|lra].
      destruct (Rge_dec a (IZR MAX_VOLUME_TARGET * 0.95)); [lra|].
      destruct (Rge_dec b (IZR MAX_VOLUME_TARGET * 0.95)); [lra|].
      unfold MIN_VOLUME, MAX_VOLUME_TARGET, LED_COUNT in *.
      apply constrainZ_le; [lia|].
      assert (Hn : 0 < (a - 1500) / (3000 - 1500) <= (b - 1500) / (3000 - 1500))
        by (split; lra).
      assert (Hp := Rle_Rpower_l _ _ 0.7 ltac:(lra) Hn).
      assert (Hz : 0 < Rpower ((a - 1500) / (3000 - 1500)) 0.7)
        by (unfold Rpower; apply exp_pos).
      apply c_round_le; lra.
  - intros st; unfold updateLedsByVolume.
    apply drawLeds_litCount, numLedsToLight_range.
Qed.

(** The monotonicity at two levels between MIN_VOLUME and 2850. *)
Lemma lit_pixel_count_witness :
  numLedsToLight 1000 = 0%Z /\
  numLedsToLight 2900 = 60%Z /\
  (numLedsToLight 1600 <= numLedsToLight 2000)%Z.
Proof.
  destruct lit_pixel_count as (_ & Hlow & _ & Hhigh & Hmono & _).
  unfold MIN_VOLUME, MAX_VOLUME_TARGET in *.
  split; [apply Hlow; lra|].
  split; [apply Hhigh; lra|].
  apply Hmono; lra.
Defined.

(** ** End-to-end scenario at [smoothVolume] 2250 *)

(** The tenth power of [0.5 ^ 0.7] is [0.5 ^ 7]. *)
Lemma curve_half_pow10 : Rpower 0.5 0.7 ^ 10 = / 128.
Proof.
  rewrite <- Rpower_pow by (unfold Rpower; apply exp_pos).
  rewrite Rpower_mult.
  replace (0.7 * INR 10) with (INR 7) by (simpl; lra).
  rewrite Rpower_pow by lra.
  simpl; lra.
Qed.

Lemma curve_half_bounds : 0.615 < Rpower 0.5 0.7 < 0.617.
Proof.
  pose proof curve_half_pow10 as H10.
  assert (Hpos : 0 < Rpower 0.5 0.7) by (unfold Rpower; apply exp_pos).
  split.
  - destruct (Rlt_le_dec 0.615 (Rpower 0.5 0.7)) as [H|H]; [exact H|].
    exfalso.
    assert (Hle := pow_incr (Rpower 0.5 0.7) 0.615 10 (conj (Rlt_le _ _ Hpos) H)).
    rewrite H10 in Hle.
    assert (Hc : 0.615 ^ 10 < / 128) by (simpl; lra).
    lra.
  - destruct (Rlt_le_dec (Rpower 0.5 0.7) 0.617) as [H|H]; [exact H|].
    exfalso.
    assert (H0 : 0 <= 0.617) by lra.
    assert (Hle := pow_incr 0.617 (Rpower 0.5 0.7) 10 (conj H0 H)).
    rewrite H10 in Hle.
    assert (Hc : / 128 < 0.617 ^ 10) by (simpl; lra).
    lra.
Qed.

Lemma c_round_curve_half : c_round (Rpower 0.5 0.7 * 60) = 37%Z.
Proof.
  pose proof curve_half_bounds as [Hlo Hhi].
  unfold c_round.
  destruct (Rle_dec 0 (Rpower 0.5 0.7 * 60)); [|lra].
  symmetry; apply Int_part_spec; lra.
Qed.

Lemma sum_repeat (v : R) (n : nat) :
  fold_right Rplus 0 (repeat v n) = INR n * v.
Proof.
  induction n as [|n IH]; [simpl; lra|].
  rewrite S_INR; cbn [repeat fold_right]; rewrite IH; lra.
Qed.

Lemma blockRms_steadyRead : blockRms 100000 steadyRead = Some 2250.
Proof.
  unfold blockRms; cbn [steadyRead result_ok bytesIn andb].
  change (0 <? 256)%Z with true; cbn iota.
  rewrite sumSquares_kept.
  change (kept 100000 (block steadyRead)) with (repeat 2250%Z 64).
  change (map (fun s => IZR (Int.mul32 s s)) (repeat 2250%Z 64))
    with (repeat 5062500 64).
  rewrite sum_repeat, repeat_length.
  change (0 <? Z.of_nat 64)%Z with true; cbn iota.
  f_equal; apply sqrt_lem_1.
  - rewrite <- INR_IZR_INZ; simpl; lra.
  - lra.
  - rewrite <- INR_IZR_INZ; simpl; lra.
Qed.

Lemma processRms_settled :
  smoothVolume (processRms 2250 settledState) = 2250 /\
  volume (processRms 2250 settledState) = 2250.
Proof.
  assert (Hc : calibratedVolumeOf 2250 0 = 2250).
  { unfold calibratedVolumeOf, c_max; cases_R. }
  assert (Hr : rawVolumeOf 2250 1 = 2250).
  { unfold rawVolumeOf, constrain, MAX_VOLUME_TARGET; cases_R. }
  assert (Hv : volume (processRms 2250 settledState) = 2250).
  { cbn [processRms settledState volume baselineNoise dynamicScaleFactor
         volumeFilter filterIndex previousVolume].
    rewrite Hc, Hr.
    unfold sumUpTo, FILTER_SIZE; simpl.
    unfold limitJump, MAX_VOLUME_TARGET.
    match goal with |- context [Rabs ?x] =>
      replace x with 0 by lra; rewrite Rabs_R0
    end.
    destruct (Rgt_dec 0 (3000 * 0.3)); lra. }
  split; [|exact Hv].
  change (smoothVolume (processRms 2250 settledState)) with
    (2250 * (1 - SMOOTHING_FACTOR)
     + volume (processRms 2250 settledState) * SMOOTHING_FACTOR).
  rewrite Hv; unfold SMOOTHING_FACTOR; lra.
Qed.

Lemma numLedsToLight_2250 : numLedsToLight 2250 = 37%Z.
Proof.
  unfold numLedsToLight, MIN_VOLUME, MAX_VOLUME_TARGET, LED_COUNT.
  destruct (Rgt_dec 2250 1500); [|lra].
  destruct (Rge_dec 2250 (3000 * 0.95)); [lra|].
  replace ((2250 - 1500) / (3000 - 1500)) with 0.5 by lra.
  now rewrite c_round_curve_half.
Qed.

(** C7. With baseline 0, scale 1, MIN_VOLUME 1500 and MAX_VOLUME_TARGET
    3000, a block of RMS 2250 keeps a state settled at 2250 where it is;
    at [smoothVolume] 2250 the normalized level is 0.5, the curved level
    [0.5 ^ 0.7] lies between 0.615 and 0.617, rounding 60 times the curved
    level gives 37 lit pixels, and the pixels are addressed outward from
    the midpoint 30: ordinal 0 is pixel 30, even ordinals step right
    (30 + i/2), odd ordinals step left (29 - i/2), so that pixels 12 to 48
    are lit and no other. *)
Theorem scenario_2250 :
  baselineNoise settledState = 0 /\ dynamicScaleFactor settledState = 1 /\
  blockRms 100000 steadyRead = Some 2250 /\
  smoothVolume (fst (loop 0 steadyRead settledState)) = 2250 /\
  (2250 - IZR MIN_VOLUME) / (IZR MAX_VOLUME_TARGET - IZR MIN_VOLUME) = 0.5 /\
  0.615 < Rpower 0.5 0.7 < 0.617 /\
  c_round (Rpower 0.5 0.7 * IZR LED_COUNT) = 37%Z /\
  numLedsToLight 2250 = 37%Z /\
  center = 30%Z /\
  map ledIndex (ordinals 37) =
  [30; 29; 31; 28; 32; 27; 33; 26; 34; 25; 35; 24; 36; 23; 37; 22; 38; 21;
   39; 20; 40; 19; 41; 18; 42; 17; 43; 16; 44; 15; 45; 14; 46; 13; 47; 12;
   48]%Z /\
  (forall i : Z, (0 <= i)%Z ->
     ledIndex (2 * i) = (30 + i)%Z /\ ledIndex (2 * i + 1) = (29 - i)%Z) /\
  (forall idx : Z, (0 <= idx < LED_COUNT)%Z ->
     (array_get 0%Z (updateLedsByVolume (fst (loop 0 steadyRead settledState)))
                idx <> 0%Z
      <-> (12 <= idx <= 48)%Z)).
Proof.
  assert (Hsmooth : smoothVolume (fst (loop 0 steadyRead settledState)) = 2250).
  { unfold loop.
    destruct (update_sameSignal 0 (acquire steadyRead settledState))
      as (_ & Hs & _).
    rewrite Hs; unfold acquire; rewrite blockRms_steadyRead.
    apply processRms_settled. }
  split; [reflexivity|].
  split; [reflexivity|].
  split; [exact blockRms_steadyRead|].
  split; [exact Hsmooth|].
  split; [unfold MIN_VOLUME, MAX_VOLUME_TARGET; lra|].
  split; [exact curve_half_bounds|].
  split; [exact c_round_curve_half|].
  split; [exact numLedsToLight_2250|].
  split; [reflexivity|].
  split; [reflexivity|].
  split.
  - intros i Hi; unfold ledIndex, center, LED_COUNT.
    rewrite !Z.rem_mod_nonneg, !Z.quot_div_nonneg by lia.
    replace ((2 * i) mod 2)%Z with 0%Z by (symmetry; apply Z.mod_divide; [lia|exists i; lia]).
    replace ((2 * i + 1) mod 2)%Z with 1%Z
      by (rewrite Z.add_comm, Z.mul_comm, Z.mod_add by lia; reflexivity).
    replace ((2 * i) / 2)%Z with i by (rewrite Z.mul_comm, Z.div_mul; lia).
    replace ((2 * i + 1) / 2)%Z with i
      by (rewrite Z.add_comm, Z.mul_comm, Z.div_add by lia; reflexivity).
    cbn; split; lia.
  - intros idx Hidx; unfold updateLedsByVolume.
    rewrite Hsmooth, numLedsToLight_2250.
    assert (H : forallb
                  (fun k => Bool.eqb (negb (array_get 0 (drawLeds 37) k =? 0))
                                     ((12 <=? k) && (k <=? 48)))%Z
                  (ordinals 60) = true) by (vm_compute; reflexivity).
    rewrite forallb_forall in H.
    specialize (H idx (ordinals_In 60 idx Hidx)).
    apply eqb_prop in H.
    rewrite <- Z.eqb_neq, <- negb_true_iff, H, andb_true_iff, !Z.leb_le.
    reflexivity.
Qed.

(** Three points of the scenario: ordinals 6 and 7, pixel 20. *)
Lemma scenario_2250_witness :
  ledIndex (2 * 3) = (30 + 3)%Z /\ ledIndex (2 * 3 + 1) = (29 - 3)%Z /\
  array_get 0%Z (updateLedsByVolume (fst (loop 0 steadyRead settledState))) 20
  <> 0%Z.
Proof.
  destruct scenario_2250
    as (_ & _ & _ & _ & _ & _ & _ & _ & _ & _ & Hidx & Hlit).
  split; [apply (Hidx 3%Z); lia|].
  split; [apply (Hidx 3%Z); lia|].
  apply (Hlit 20%Z); unfold LED_COUNT; lia.
Defined.

(** ** Bounds along the signal path *)

Lemma Forall_firstn_keep {A : Type} (P : A -> Prop) (n : nat) (l : list A) :
  Forall P l -> Forall P (firstn n l).
Proof.
  intros H; revert n; induction H as [|h t Hh Ht IH]; intros [|n]; simpl;
    auto.
Qed.

Lemma movingAverage_range (l : list R) :
  Forall inRange l -> inRange (sumUpTo FILTER_SIZE l / IZR FILTER_SIZE).
Proof.
  intros H; unfold sumUpTo; rewrite fold_left_Rplus.
  pose proof (sum_bounds 0 (IZR MAX_VOLUME_TARGET) _
                (Forall_firstn_keep _ (Z.to_nat FILTER_SIZE) l H)) as Hs.
  pose proof (firstn_le_length (Z.to_nat FILTER_SIZE) l) as Hlen.
  apply le_INR in Hlen.
  pose proof (pos_INR (List.length (firstn (Z.to_nat FILTER_SIZE) l))) as Hpos.
  change (INR (Z.to_nat FILTER_SIZE)) with (INR 5) in Hlen.
  replace (INR 5) with 5 in Hlen by (simpl; lra).
  unfold inRange, MAX_VOLUME_TARGET, FILTER_SIZE in *.
  set (n := INR _) in *; set (s := fold_right _ _ _) in *.
  split.
  - apply Rmult_le_reg_r with 5; [lra|].
    replace ((0 + s) / 5 * 5) with s by lra. lra.
  - apply Rmult_le_reg_r with 5; [lra|].
    replace ((0 + s) / 5 * 5) with s by lra. nra.
Qed.

Lemma limitJump_range (previous vol : R) :
  inRange previous -> inRange vol -> inRange (limitJump previous vol).
Proof.
  unfold inRange, limitJump, MAX_VOLUME_TARGET; intros Hp Hv.
  destruct (Rgt_dec (Rabs (vol - previous)) (3000 * 0.3)) as [Hj|Hj];
    [|exact Hv].
  unfold Rabs in Hj; destruct (Rcase_abs (vol - previous));
    destruct (Rgt_dec vol previous); lra.
Qed.

Lemma smoothing_range (s v : R) :
  inRange s -> inRange v ->
  inRange (s * (1 - SMOOTHING_FACTOR) + v * SMOOTHING_FACTOR).
Proof.
  unfold inRange, SMOOTHING_FACTOR, MAX_VOLUME_TARGET; intros Hs Hv; lra.
Qed.

Lemma bounded_processRms (rms : R) (st : State) :
  bounded st -> bounded (processRms rms st).
Proof.
  intros [Hf Hv Hp Hs].
  assert (Hf' : Forall inRange
                  (array_set (volumeFilter st) (filterIndex st)
                     (rawVolumeOf (calibratedVolumeOf rms (baselineNoise st))
                                  (dynamicScaleFactor st)))).
  { apply array_set_Forall; [exact Hf|].
    unfold inRange, MAX_VOLUME_TARGET; apply rawVolumeOf_range. }
  pose proof (limitJump_range _ _ Hp (movingAverage_range _ Hf')) as Hl.
  split; cbn [processRms volumeFilter volume previousVolume smoothVolume];
    auto using smoothing_range.
Qed.

Lemma bounded_sameSignal (st st' : State) :
  sameSignal st st' -> bounded st -> bounded st'.
Proof.
  intros (H1 & H2 & H3 & H4 & _) [Hf Hv Hp Hs].
  split; congruence.
Qed.

Lemma bounded_acquire (rd : Read) (st : State) :
  bounded st -> bounded (acquire rd st).
Proof.
  intros H; unfold acquire; destruct (blockRms 100000 rd);
    auto using bounded_processRms.
Qed.

Lemma bounded_loop (now : Z) (rd : Read) (st : State) :
  bounded st -> bounded (fst (loop now rd st)).
Proof.
  intros H; unfold loop.
  eapply bounded_sameSignal;
    [apply update_sameSignal | apply bounded_acquire, H].
Qed.

Lemma bounded_initial_state : bounded initial_state.
Proof.
  split; cbn [initial_state volumeFilter volume previousVolume smoothVolume];
    unfold inRange, MAX_VOLUME_TARGET; try lra.
  apply Forall_forall; intros x Hx; apply repeat_spec in Hx; subst x; lra.
Qed.

Lemma calibrateBaseline_sameSignal (reads : nat -> Read) (st : State) :
  sameSignal st (fst (calibrateBaseline reads st)).
Proof.
  unfold calibrateBaseline.
  destruct (calibrationTotals reads) as [t v].
  destruct (0 <? v)%Z; repeat split.
Qed.

Lemma bounded_setup (reads : nat -> Read) : bounded (setup reads).
Proof.
  eapply bounded_sameSignal;
    [apply calibrateBaseline_sameSignal | apply bounded_initial_state].
Qed.

Lemma bounded_run (inputs : list (Z * Read)) (reads : nat -> Read) :
  bounded (run inputs (setup reads)).
Proof. apply run_invariant; auto using bounded_loop, bounded_setup. Qed.

(** C10. Starting from [smoothVolume] = 0 and [previousVolume] = 0, after
    [setup] and any number of iterations of [loop], on any inputs, the
    limited [volume], [previousVolume], [smoothVolume] and every slot of the
    moving-average window lie in [0, MAX_VOLUME_TARGET]; so does the
    [smoothVolume] the mapper reads in the next iteration.  The three
    stages keep the range one by one: the moving average of values in
    range is in range, the limiter maps two values in range to a value in
    range, and the exponential average of two values in range is in
    range. *)
Theorem signal_path_bounded :
  (smoothVolume initial_state = 0 /\ previousVolume initial_state = 0) /\
  (forall (reads : nat -> Read) (inputs : list (Z * Read)),
     let st := run inputs (setup reads) in
     0 <= volume st <= 3000 /\
     0 <= smoothVolume st <= 3000 /\
     0 <= previousVolume st <= 3000 /\
     Forall (fun x => 0 <= x <= 3000) (volumeFilter st)) /\
  (forall (reads : nat -> Read) (inputs : list (Z * Read)) (rd : Read),
     0 <= smoothVolume (acquire rd (run inputs (setup reads))) <= 3000) /\
  (forall l : list R,
     Forall (fun x => 0 <= x <= 3000) l ->
     0 <= sumUpTo FILTER_SIZE l / IZR FILTER_SIZE <= 3000) /\
  (forall previous vol : R,
     0 <= previous <= 3000 -> 0 <= vol <= 3000 ->
     0 <= limitJump previous vol <= 3000) /\
  (forall s v : R,
     0 <= s <= 3000 -> 0 <= v <= 3000 ->
     0 <= s * (1 - SMOOTHING_FACTOR) + v * SMOOTHING_FACTOR <= 3000).
Proof.
  split; [split; reflexivity|].
  split.
  { intros reads inputs st.
    destruct (bounded_run inputs reads) as [Hf Hv Hp Hs].
    repeat split; try apply Hv; try apply Hs; try apply Hp.
    exact Hf. }
  split.
  { intros reads inputs rd.
    apply (bounded_smooth _ (bounded_acquire rd _ (bounded_run inputs reads))). }
  split; [exact movingAverage_range|].
  split; [exact limitJump_range | exact smoothing_range].
Qed.

(** The three stages at the corners of the range. *)
Lemma signal_path_bounded_witness :
  0 <= sumUpTo FILTER_SIZE [3000; 0; 3000; 0; 3000] / IZR FILTER_SIZE <= 3000 /\
  0 <= limitJump 0 3000 <= 3000 /\
  0 <= limitJump 3000 0 <= 3000 /\
  0 <= 0 * (1 - SMOOTHING_FACTOR) + 3000 * SMOOTHING_FACTOR <= 3000.
Proof.
  destruct signal_path_bounded as (_ & _ & _ & Hma & Hlim & Hema).
  split; [apply Hma; repeat constructor; lra|].
  split; [apply Hlim; lra|].
  split; [apply Hlim; lra|].
  apply Hema; lra.
Defined.

(** ** The adaptive gain controller *)

Lemma scan_max_ge (l : list R) (m : R) :
  m <= fold_left (fun m x => if Rgt_dec x m then x else m) l m.
Proof.
  revert m; induction l as [|h t IH]; intros m; simpl; [lra|].
  destruct (Rgt_dec h m) as [G|G].
  - apply Rle_trans with h; [lra | apply IH].
  - apply IH.
Qed.

Lemma currentMaxDetected_nonneg (st : State) : 0 <= currentMaxDetected st.
Proof. apply scan_max_ge. Qed.

Lemma sumUpTo_nonneg (n : Z) (l : list R) :
  Forall (fun p => 0 <= p) l -> 0 <= sumUpTo n l.
Proof.
  intros H; unfold sumUpTo; rewrite fold_left_Rplus.
  assert (Hr : Forall (fun x => 0 <= x <= fold_right Rmax 0 l) l).
  { clear n; induction H as [|h t Hh Ht IH]; constructor.
    - split; [exact Hh | apply Rmax_l].
    - eapply Forall_impl; [|exact IH].
      intros a [Ha1 Ha2]; split; [exact Ha1|].
      apply Rle_trans with (fold_right Rmax 0 t); [exact Ha2 | apply Rmax_r]. }
  pose proof (sum_bounds 0 _ _ (Forall_firstn_keep _ (Z.to_nat n) l Hr)) as Hs.
  lra.
Qed.

Lemma getAveragePeak_nonneg (st : State) :
  Forall (fun p => 0 <= p) (peakHistory st) -> 0 <= getAveragePeak st.
Proof.
  intros H; unfold getAveragePeak.
  destruct (Z.eqb_spec (peakCount st) 0); [lra|].
  pose proof (sumUpTo_nonneg (peakCount st) _ H) as Hs.
  destruct (Z_lt_le_dec (peakCount st) 0) as [Hn|Hn].
  - unfold sumUpTo; replace (Z.to_nat (peakCount st)) with 0%nat by lia.
    simpl; unfold Rdiv; rewrite Rmult_0_l; lra.
  - assert (Hc : 0 < IZR (peakCount st)) by (apply IZR_lt; lia).
    apply Rmult_le_reg_r with (IZR (peakCount st)); [exact Hc|].
    unfold Rdiv; rewrite Rmult_0_l, Rmult_assoc, Rinv_l by lra; lra.
Qed.

Lemma recordPeak_scale (st : State) :
  dynamicScaleFactor (recordPeak st) = dynamicScaleFactor st.
Proof. unfold recordPeak; case_R; reflexivity. Qed.

Lemma recordPeak_peaks_nonneg (st : State) :
  Forall (fun p => 0 <= p) (peakHistory st) ->
  Forall (fun p => 0 <= p) (peakHistory (recordPeak st)).
Proof.
  intros H; unfold recordPeak; case_R; [|exact H].
  cbn [addPeakToHistory peakHistory].
  apply array_set_Forall; [exact H | apply currentMaxDetected_nonneg].
Qed.

Lemma recalibrate_scale (now : Z) (st : State) :
  let averagePeak := getAveragePeak (recordPeak st) in
  (averagePeak <= 0 /\
   dynamicScaleFactor (recalibrate now st) = dynamicScaleFactor st) \/
  (0 < averagePeak /\
   dynamicScaleFactor (recalibrate now st)
   = dynamicScaleFactor st * 0.8
     + (IZR MAX_VOLUME_TARGET / averagePeak) * 0.2).
Proof.
  intros averagePeak; unfold recalibrate; fold averagePeak.
  cbn [dynamicScaleFactor]; rewrite recordPeak_scale.
  destruct (Rgt_dec averagePeak 0); [right | left]; split;
    try reflexivity; lra.
Qed.

Lemma recalibrate_scale_pos (now : Z) (st : State) :
  0 < dynamicScaleFactor st -> 0 < dynamicScaleFactor (recalibrate now st).
Proof.
  intros Hpos.
  destruct (recalibrate_scale now st) as [[_ ->] | [Havg ->]]; [exact Hpos|].
  assert (0 < IZR MAX_VOLUME_TARGET / getAveragePeak (recordPeak st)).
  { apply Rdiv_lt_0_compat; [unfold MAX_VOLUME_TARGET; lra | exact Havg]. }
  lra.
Qed.

Lemma update_scale (now : Z) (st : State) :
  dynamicScaleFactor (fst (update now st)) = dynamicScaleFactor st \/
  dynamicScaleFactor (fst (update now st))
  = dynamicScaleFactor (recalibrate now st).
Proof.
  unfold update.
  destruct (_ >? _)%Z; [|left; reflexivity].
  destruct (_ >=? _)%Z; [right | left]; reflexivity.
Qed.

Lemma acquire_agc (rd : Read) (st : State) :
  dynamicScaleFactor (acquire rd st) = dynamicScaleFactor st /\
  peakHistory (acquire rd st) = peakHistory st.
Proof.
  unfold acquire; destruct (blockRms 100000 rd); split; reflexivity.
Qed.

Lemma update_peaks (now : Z) (st : State) :
  peakHistory (fst (update now st)) = peakHistory st \/
  peakHistory (fst (update now st)) = peakHistory (recordPeak st).
Proof.
  unfold update.
  destruct (_ >? _)%Z; [|left; reflexivity].
  destruct (_ >=? _)%Z; [right | left]; reflexivity.
Qed.

Lemma agcOk_loop (now : Z) (rd : Read) (st : State) :
  agcOk st -> agcOk (fst (loop now rd st)).
Proof.
  intros [Hs Hp]; unfold loop.
  destruct (acquire_agc rd st) as [Ha1 Ha2].
  split.
  - destruct (update_scale now (acquire rd st)) as [-> | ->].
    + now rewrite Ha1.
    + apply recalibrate_scale_pos; now rewrite Ha1.
  - destruct (update_peaks now (acquire rd st)) as [-> | ->].
    + now rewrite Ha2.
    + apply recordPeak_peaks_nonneg; now rewrite Ha2.
Qed.

Lemma agcOk_setup (reads : nat -> Read) : agcOk (setup reads).
Proof.
  unfold setup, calibrateBaseline.
  destruct (calibrationTotals reads) as [t v].
  destruct (0 <? v)%Z; split;
    cbn [fst set_baselineNoise initial_state dynamicScaleFactor peakHistory];
    try lra;
    apply Forall_forall; intros x Hx; apply repeat_spec in Hx; subst x; lra.
Qed.

Lemma agcOk_run (inputs : list (Z * Read)) (reads : nat -> Read) :
  agcOk (run inputs (setup reads)).
Proof. apply run_invariant; auto using agcOk_loop, agcOk_setup. Qed.

(** C2. [dynamicScaleFactor] starts at 2.0 and is strictly positive after
    [setup] and any number of iterations of [loop], on any inputs.  The
    only write to it is the recalibration, and a recalibration in any such
    state either leaves it as it is, when [averagePeak] is 0, or replaces
    it by [dynamicScaleFactor * 0.8 + (3000 / averagePeak) * 0.2] with
    [averagePeak] > 0.  From any state at all, whatever the recorded peaks,
    a recalibration keeps a positive scale factor positive. *)
Theorem agc_scale_positive :
  dynamicScaleFactor initial_state = 2 /\
  (forall (reads : nat -> Read) (inputs : list (Z * Read)),
     0 < dynamicScaleFactor (run inputs (setup reads))) /\
  (forall (now : Z) (rd : Read) (st : State),
     dynamicScaleFactor (fst (loop now rd st)) = dynamicScaleFactor st \/
     dynamicScaleFactor (fst (loop now rd st))
     = dynamicScaleFactor (recalibrate now (acquire rd st))) /\
  (forall (reads : nat -> Read) (inputs : list (Z * Read)) (now : Z),
     let st := run inputs (setup reads) in
     let averagePeak := getAveragePeak (recordPeak st) in
     (averagePeak = 0 /\
      dynamicScaleFactor (recalibrate now st) = dynamicScaleFactor st) \/
     (0 < averagePeak /\
      dynamicScaleFactor (recalibrate now st)
      = dynamicScaleFactor st * 0.8 + (3000 / averagePeak) * 0.2)) /\
  (forall (now : Z) (st : State),
     0 < dynamicScaleFactor st ->
     0 < dynamicScaleFactor (recalibrate now st)).
Proof.
  split; [reflexivity|].
  split; [intros reads inputs; apply (agcOk_run inputs reads)|].
  split.
  { intros now rd st; unfold loop.
    destruct (update_scale now (acquire rd st)) as [H | H]; [left | right];
      rewrite H; [apply acquire_agc | reflexivity]. }
  split; [|exact recalibrate_scale_pos].
  intros reads inputs now; cbv zeta.
  pose proof (getAveragePeak_nonneg _
                (recordPeak_peaks_nonneg _
                   (agc_peaks_nonneg _ (agcOk_run inputs reads)))) as Hnn.
  destruct (recalibrate_scale now (run inputs (setup reads)))
    as [[Havg Hd] | [Havg Hd]].
  - left; split; [lra | exact Hd].
  - right; split; [exact Havg | exact Hd].
Qed.

(** The first recalibration after power-on. *)
Lemma agc_scale_positive_witness :
  0 < dynamicScaleFactor initial_state /\
  0 < dynamicScaleFactor (recalibrate 5000 initial_state).
Proof.
  assert (H : 0 < dynamicScaleFactor initial_state) by (simpl; lra).
  split; [exact H|].
  exact (proj2 (proj2 (proj2 (proj2 agc_scale_positive))) 5000%Z
               initial_state H).
Defined.

(** ** The limiter during a run

    From power-on the moving average moves by at most a fifth of the range
    per cycle, so it never leaves [previousVolume] by more than 600. *)

Lemma length5 {A : Type} (l : list A) :
  List.length l = 5%nat -> exists a b c d e, l = [a; b; c; d; e].
Proof.
  destruct l as [|a [|b [|c [|d [|e [|f t]]]]]]; simpl; try discriminate.
  intros _; now exists a, b, c, d, e.
Qed.

Lemma movingAverage_step (rms : R) (st : State) :
  wf st -> bounded st -> tracking st ->
  let average :=
    sumUpTo FILTER_SIZE (volumeFilter (processRms rms st)) / IZR FILTER_SIZE in
  Rabs (average - previousVolume st) <= 600 /\
  volume (processRms rms st) = average.
Proof.
  intros Hwf Hb Ht average.
  assert (Hd : Rabs (average - previousVolume st) <= 600).
  { subst average; rewrite Ht.
    cbn [processRms volumeFilter].
    pose proof (rawVolumeOf_range
                  (calibratedVolumeOf rms (baselineNoise st))
                  (dynamicScaleFactor st)) as Hr.
    set (x := rawVolumeOf _ _) in *.
    destruct (length5 _ (wf_filter_len _ Hwf)) as (a & b & c & d & e & Hl).
    pose proof (bounded_filter _ Hb) as Hf; rewrite Hl in *.
    repeat match goal with
           | H : Forall _ (_ :: _) |- _ => inversion H; clear H; subst
           end.
    unfold inRange, MAX_VOLUME_TARGET in *.
    pose proof (wf_filter_idx _ Hwf) as Hi; unfold FILTER_SIZE in *.
    assert (Hc : (filterIndex st = 0 \/ filterIndex st = 1 \/
                  filterIndex st = 2 \/ filterIndex st = 3 \/
                  filterIndex st = 4)%Z) by lia.
    destruct Hc as [-> | [-> | [-> | [-> | ->]]]];
      unfold sumUpTo; simpl; apply Rabs_le; lra. }
  split; [exact Hd|].
  subst average; cbn [processRms volume volumeFilter] in *.
  set (m := sumUpTo _ _ / _) in *.
  unfold limitJump, MAX_VOLUME_TARGET.
  destruct (Rgt_dec (Rabs (m - previousVolume st)) (3000 * 0.3));
    [lra | reflexivity].
Qed.

Lemma tracking_processRms (rms : R) (st : State) :
  wf st -> bounded st -> tracking st -> tracking (processRms rms st).
Proof.
  intros Hwf Hb Ht.
  destruct (movingAverage_step rms st Hwf Hb Ht) as [_ Hv].
  unfold tracking; rewrite <- Hv; reflexivity.
Qed.

Lemma tracking_sameSignal (st st' : State) :
  sameSignal st st' -> tracking st -> tracking st'.
Proof.
  intros (_ & _ & H3 & H4 & _) Ht; unfold tracking in *; congruence.
Qed.

Lemma tracking_run (inputs : list (Z * Read)) (reads : nat -> Read) :
  tracking (run inputs (setup reads)).
Proof.
  apply (run_invariant (fun st => wf st /\ bounded st /\ tracking st)).
  - intros now rd st (Hwf & Hb & Ht).
    split; [apply wf_loop, Hwf|].
    split; [apply bounded_loop, Hb|].
    unfold loop.
    eapply tracking_sameSignal; [apply update_sameSignal|].
    unfold acquire; destruct (blockRms 100000 rd);
      auto using tracking_processRms.
  - split; [apply wf_setup|].
    split; [apply bounded_setup|].
    eapply tracking_sameSignal; [apply calibrateBaseline_sameSignal|].
    unfold tracking, sumUpTo, FILTER_SIZE; simpl; lra.
Qed.

(** In every cycle of a run from power-on the moving average is within 600
    of [previousVolume]: the limiter passes it through unchanged. *)
Remark limiter_idle_from_power_on :
  forall (reads : nat -> Read) (inputs : list (Z * Read)) (rms : R),
    let st := run inputs (setup reads) in
    let average :=
      sumUpTo FILTER_SIZE (volumeFilter (processRms rms st)) / IZR FILTER_SIZE in
    Rabs (average - previousVolume st) <= 600 /\
    volume (processRms rms st) = average.
Proof.
  intros reads inputs rms st average.
  apply movingAverage_step;
    [apply wf_run | apply bounded_run | apply tracking_run].
Qed.

(** * Further properties of the code *)

(** ** The circular buffers during a run *)

Lemma acquire_cursors (rd : Read) (st : State) :
  match blockRms 100000 rd with
  | Some _ =>
      filterIndex (acquire rd st) = Z.rem (filterIndex st + 1) FILTER_SIZE /\
      volumeIndex (acquire rd st) = Z.rem (volumeIndex st + 1) VOLUME_SAMPLES
  | None =>
      filterIndex (acquire rd st) = filterIndex st /\
      volumeIndex (acquire rd st) = volumeIndex st
  end.
Proof.
  unfold acquire; destruct (blockRms 100000 rd); split; reflexivity.
Qed.

Lemma lockstep_loop (now : Z) (rd : Read) (st : State) :
  wf st ->
  filterIndex st = (volumeIndex st mod FILTER_SIZE)%Z ->
  filterIndex (fst (loop now rd st))
  = (volumeIndex (fst (loop now rd st)) mod FILTER_SIZE)%Z.
Proof.
  intros Hwf Hl; unfold loop.
  destruct (update_sameSignal now (acquire rd st))
    as (_ & _ & _ & _ & -> & _ & ->).
  pose proof (acquire_cursors rd st) as Hc.
  destruct (blockRms 100000 rd); destruct Hc as [-> ->]; [|exact Hl].
  destruct Hwf as [_ Hf _ Hv _ _ _].
  unfold FILTER_SIZE, VOLUME_SAMPLES in *.
  rewrite !Z.rem_mod_nonneg by lia.
  rewrite Z.mod_mod_divide by (exists 100%Z; lia).
  rewrite Hl, Zplus_mod_idemp_l; reflexivity.
Qed.

(** X1. After [setup] and any number of iterations of [loop], on any
    inputs, the moving-average window has 5 slots, the volume history 500
    and the peak history 10, each cursor is inside its buffer, at most 10
    peaks are counted, and the window cursor is the history cursor modulo
    5: the two advance together.  An iteration that obtains an RMS value
    advances both cursors by one, cyclically; any other leaves them. *)
Theorem buffers_well_formed :
  forall (reads : nat -> Read) (inputs : list (Z * Read)) (now : Z) (rd : Read),
    let st := run inputs (setup reads) in
    let st' := fst (loop now rd st) in
    (List.length (volumeFilter st) = 5%nat /\
     List.length (rawVolumeHistory st) = 500%nat /\
     List.length (peakHistory st) = 10%nat) /\
    ((0 <= filterIndex st < 5)%Z /\ (0 <= volumeIndex st < 500)%Z /\
     (0 <= peakIndex st < 10)%Z /\ (0 <= peakCount st <= 10)%Z) /\
    filterIndex st = (volumeIndex st mod 5)%Z /\
    match blockRms 100000 rd with
    | Some _ => filterIndex st' = ((filterIndex st + 1) mod 5)%Z /\
                volumeIndex st' = ((volumeIndex st + 1) mod 500)%Z
    | None => filterIndex st' = filterIndex st /\
              volumeIndex st' = volumeIndex st
    end.
Proof.
  intros reads inputs now rd st st'.
  pose proof (wf_run inputs reads) as Hwf; fold st in Hwf.
  split; [destruct Hwf; repeat split; assumption|].
  split; [destruct Hwf; repeat split;
          unfold FILTER_SIZE, VOLUME_SAMPLES, PEAK_HISTORY_SIZE in *; lia|].
  split.
  - subst st.
    apply (run_invariant
             (fun s => wf s /\ filterIndex s = (volumeIndex s mod FILTER_SIZE)%Z)).
    + intros n r s [Hw Hl]; split; [apply wf_loop, Hw|].
      apply lockstep_loop; assumption.
    + split; [apply wf_setup|].
      destruct (calibrateBaseline_sameSignal reads initial_state)
        as (_ & _ & _ & _ & Hf & _ & Hv).
      unfold setup; rewrite Hf, Hv; reflexivity.
  - subst st'; unfold loop.
    destruct (update_sameSignal now (acquire rd st))
      as (_ & _ & _ & _ & -> & _ & ->).
    pose proof (acquire_cursors rd st) as Hc.
    destruct Hwf as [_ Hf _ Hv _ _ _].
    unfold FILTER_SIZE, VOLUME_SAMPLES in *.
    destruct (blockRms 100000 rd); destruct Hc as [-> ->];
      rewrite ?Z.rem_mod_nonneg by lia; split; reflexivity.
Qed.

(** ** The baseline *)

Lemma blockRms_value (limit : Z) (rd : Read) (r : R) :
  blockRms limit rd = Some r ->
  kept limit (block rd) <> [] /\
  r = sqrt (fold_right Rplus 0
              (map (fun s => IZR (Int.mul32 s s)) (kept limit (block rd)))
            / INR (List.length (kept limit (block rd)))).
Proof.
  unfold blockRms.
  destruct (result_ok rd && (0 <? bytesIn rd)%Z); [|discriminate].
  rewrite sumSquares_kept.
  destruct (kept limit (block rd)) as [|k ks]; [discriminate|].
  destruct (Z.ltb_spec 0 (Z.of_nat (List.length (k :: ks))));
    [|simpl in *; lia].
  intros Heq; injection Heq as <-; split; [discriminate|].
  rewrite (INR_IZR_INZ (List.length (k :: ks))); reflexivity.
Qed.

Lemma sum_nonneg (l : list R) :
  Forall (fun x => 0 <= x) l -> 0 <= fold_right Rplus 0 l.
Proof.
  induction 1 as [|h t Hh Ht IH]; simpl; lra.
Qed.

Lemma mean_nonneg (l : list R) :
  Forall (fun x => 0 <= x) l -> 0 <= Spec.mean l.
Proof.
  intros H; unfold Spec.mean.
  pose proof (sum_nonneg l H) as Hs.
  destruct l as [|h t].
  - simpl; unfold Rdiv; rewrite Rmult_0_l; lra.
  - assert (Hn : 0 < INR (List.length (h :: t))) by (apply lt_0_INR; simpl; lia).
    apply Rmult_le_reg_r with (INR (List.length (h :: t))); [exact Hn|].
    unfold Rdiv; rewrite Rmult_0_l, Rmult_assoc, Rinv_l by lra; lra.
Qed.

Lemma blockRms_nonneg (limit : Z) (rd : Read) (r : R) :
  blockRms limit rd = Some r -> 0 <= r.
Proof.
  unfold blockRms.
  destruct (result_ok rd && (0 <? bytesIn rd)%Z); [|discriminate].
  destruct (sumSquares limit (block rd)) as [s n].
  destruct (0 <? n)%Z; [|discriminate].
  intros H; injection H as <-; apply sqrt_pos.
Qed.

Lemma rmsValues_nonneg (l : list Read) :
  Forall (fun x => 0 <= x) (rmsValues l).
Proof.
  induction l as [|rd t IH]; [constructor|].
  unfold rmsValues in *; cbn [flat_map].
  destruct (blockRms 50000 rd) as [r|] eqn:E; [|exact IH].
  constructor; [exact (blockRms_nonneg _ _ _ E) | exact IH].
Qed.

(** Of the model only: it rests on [sqrt] of [R] being 0 on a negative sum,
    where the source has NaN. *)
Lemma setup_baseline_nonneg (reads : nat -> Read) :
  0 <= baselineNoise (setup reads).
Proof.
  unfold setup; rewrite calibrateBaseline_baseline.
  destruct (calibrationRms reads) as [|r rs] eqn:E.
  - simpl; lra.
  - rewrite <- E; apply mean_nonneg, rmsValues_nonneg.
Qed.

Lemma loop_baseline (now : Z) (rd : Read) (st : State) :
  baselineNoise (fst (loop now rd st)) = baselineNoise st.
Proof.
  unfold loop, update, acquire.
  destruct (blockRms 100000 rd);
    destruct (_ >? _)%Z; try reflexivity;
    destruct (_ >=? _)%Z; cbn; try reflexivity;
    unfold recordPeak; case_R; reflexivity.
Qed.

(** X5. [baselineNoise] is written by the calibration only.  When in none
    of the 100 calibration blocks the square of a kept sample wraps (every
    kept sample has absolute value at most 46340), it is at least 0 after
    [setup].  No iteration of [loop] changes it, and the calibration itself
    changes no other variable. *)
Theorem baseline_set_once :
  forall (reads : nat -> Read) (inputs : list (Z * Read)) (st : State),
    (Forall (squaresFit 50000) (map reads (seq 0 CALIBRATION_SAMPLES)) ->
     0 <= baselineNoise (setup reads)) /\
    baselineNoise (run inputs (setup reads)) = baselineNoise (setup reads) /\
    baselineNoise (run inputs st) = baselineNoise st /\
    let st' := fst (calibrateBaseline reads st) in
    volume st' = volume st /\ smoothVolume st' = smoothVolume st /\
    maxVolume st' = maxVolume st /\ volumeFilter st' = volumeFilter st /\
    filterIndex st' = filterIndex st /\
    dynamicScaleFactor st' = dynamicScaleFactor st /\
    rawVolumeHistory st' = rawVolumeHistory st /\
    volumeIndex st' = volumeIndex st /\
    lastCalibration st' = lastCalibration st /\
    peakHistory st' = peakHistory st /\ peakIndex st' = peakIndex st /\
    peakCount st' = peakCount st /\
    previousVolume st' = previousVolume st /\ lastUpdate st' = lastUpdate st.
Proof.
  intros reads inputs st.
  assert (Hrun : forall s, baselineNoise (run inputs s) = baselineNoise s).
  { intros s.
    apply (run_invariant (fun x => baselineNoise x = baselineNoise s));
      [|reflexivity].
    intros n r x Hx; now rewrite loop_baseline. }
  split.
  { intros Hfit; unfold setup; rewrite calibrateBaseline_baseline.
    destruct (calibrationRms reads) as [|r rs] eqn:E; [simpl; lra|].
    rewrite <- E; apply mean_nonneg; unfold calibrationRms.
    clear E; induction Hfit as [|rd t Hrd Ht IH]; [constructor|].
    unfold rmsValues in *; cbn [flat_map].
    destruct (blockRms 50000 rd) as [v|] eqn:Ev; [|exact IH].
    constructor; [|exact IH].
    destruct (blockRms_value 50000 rd v Ev) as [Hne ->].
    rewrite (squares_exact _ Hrd); apply sqrt_pos. }
  split; [apply Hrun|].
  split; [apply Hrun|].
  unfold calibrateBaseline.
  destruct (calibrationTotals reads) as [t v].
  destruct (0 <? v)%Z; repeat split.
Qed.

(** A calibration in a silent room. *)
Lemma baseline_set_once_witness :
  Forall (squaresFit 50000)
         (map (fun _ : nat => silentRead) (seq 0 CALIBRATION_SAMPLES)) /\
  0 <= baselineNoise (setup (fun _ => silentRead)).
Proof.
  assert (H : Forall (squaresFit 50000)
                (map (fun _ : nat => silentRead) (seq 0 CALIBRATION_SAMPLES))).
  { apply Forall_forall; intros rd Hrd.
    apply in_map_iff in Hrd; destruct Hrd as (k & <- & _).
    unfold squaresFit; apply Forall_forall; intros s Hs.
    change (kept 50000 (block silentRead)) with (repeat 0%Z 64) in Hs.
    apply repeat_spec in Hs; subst s; simpl; lia. }
  split; [exact H|].
  exact (proj1 (baseline_set_once (fun _ => silentRead) [] initial_state) H).
Defined.

(** ** The volume during a run *)

Lemma volume_previous_loop (now : Z) (rd : Read) (st : State) :
  volume st = previousVolume st ->
  volume (fst (loop now rd st)) = previousVolume (fst (loop now rd st)).
Proof.
  intros H; unfold loop.
  destruct (update_sameSignal now (acquire rd st)) as (-> & _ & -> & _).
  unfold acquire; destruct (blockRms 100000 rd); [reflexivity | exact H].
Qed.

(** X7. After [setup] and any number of iterations of [loop], on any
    inputs, [volume] equals [previousVolume] and both equal the mean of the
    five slots of the moving-average window: the jump limiter has never
    altered the moving average. *)
Theorem volume_is_window_mean :
  forall (reads : nat -> Read) (inputs : list (Z * Read)),
    let st := run inputs (setup reads) in
    volume st = previousVolume st /\
    volume st = sumUpTo FILTER_SIZE (volumeFilter st) / IZR FILTER_SIZE.
Proof.
  intros reads inputs st.
  assert (Hv : volume st = previousVolume st).
  { subst st.
    apply (run_invariant (fun s => volume s = previousVolume s));
      [intros n r s; apply volume_previous_loop|].
    destruct (calibrateBaseline_sameSignal reads initial_state)
      as (Hvol & _ & Hp & _).
    unfold setup; rewrite Hvol, Hp; reflexivity. }
  split; [exact Hv|].
  rewrite Hv; apply tracking_run.
Qed.

(** ** The update tick *)

Lemma drawLeds_length (n : Z) : List.length (drawLeds n) = 60%nat.
Proof.
  unfold drawLeds.
  assert (H : forall l frame,
             List.length (fold_left drawLed l frame) = List.length frame).
  { induction l as [|i t IH]; intros frame; simpl; [reflexivity|].
    rewrite IH; unfold drawLed.
    destruct (_ && _); [apply array_set_length | reflexivity]. }
  rewrite H; apply repeat_length.
Qed.

Lemma acquire_timestamps (rd : Read) (st : State) :
  lastUpdate (acquire rd st) = lastUpdate st /\
  lastCalibration (acquire rd st) = lastCalibration st.
Proof.
  unfold acquire; destruct (blockRms 100000 rd); split; reflexivity.
Qed.

Lemma update_no_tick (now : Z) (st : State) :
  (Int.usub32 now (lastUpdate st) <= UPDATE_INTERVAL)%Z ->
  update now st = (st, mkOutput None []).
Proof.
  intros H; unfold update.
  destruct (Z.gtb_spec (Int.usub32 now (lastUpdate st)) UPDATE_INTERVAL);
    [lia | reflexivity].
Qed.

Lemma update_tick_lastUpdate (now : Z) (st : State) :
  (Int.usub32 now (lastUpdate st) > UPDATE_INTERVAL)%Z ->
  lastUpdate (fst (update now st)) = now.
Proof.
  intros H; unfold update.
  destruct (Z.gtb_spec (Int.usub32 now (lastUpdate st)) UPDATE_INTERVAL);
    [reflexivity | lia].
Qed.

Lemma usub32_range (a b : Z) : (0 <= Int.usub32 a b < 2 ^ 32)%Z.
Proof. unfold Int.usub32; apply Z.mod_pos_bound; lia. Qed.

(** X9. Ticks keep their distance.  After an update tick at time [now], an
    iteration at most 5 ms later (modulo 2^32) is no tick: it pushes no
    frame and prints nothing.  After a recalibration at time [now], an
    iteration less than 5000 ms later leaves [dynamicScaleFactor], the
    peak history and [lastCalibration] as they are, tick or not. *)
Theorem ticks_keep_distance :
  forall (now now' : Z) (rd rd' : Read) (st : State),
    let st1 := fst (loop now rd st) in
    let st2 := fst (loop now' rd' st1) in
    (Int.usub32 now (lastUpdate st) > UPDATE_INTERVAL)%Z ->
    ((Int.usub32 now' now <= UPDATE_INTERVAL)%Z ->
     snd (loop now' rd' st1) = mkOutput None []) /\
    ((Int.usub32 now (lastCalibration st) >= CALIBRATION_WINDOW)%Z ->
     lastCalibration st1 = now /\
     ((Int.usub32 now' now < CALIBRATION_WINDOW)%Z ->
      dynamicScaleFactor st2 = dynamicScaleFactor st1 /\
      peakHistory st2 = peakHistory st1 /\
      peakCount st2 = peakCount st1 /\
      lastCalibration st2 = now)).
Proof.
  intros now now' rd rd' st st1 st2 Htick.
  assert (Hu : lastUpdate st1 = now).
  { unfold st1, loop; apply update_tick_lastUpdate.
    now rewrite (proj1 (acquire_timestamps rd st)). }
  split.
  - intros Hsoon.
    unfold loop; rewrite update_no_tick; [reflexivity|].
    now rewrite (proj1 (acquire_timestamps rd' st1)), Hu.
  - intros Hcal.
    assert (Hc : lastCalibration st1 = now).
    { unfold st1, loop, update.
      destruct (acquire_timestamps rd st) as [-> ->].
      destruct (Z.gtb_spec (Int.usub32 now (lastUpdate st)) UPDATE_INTERVAL);
        [|lia].
      destruct (Z.geb_spec (Int.usub32 now (lastCalibration st))
                           CALIBRATION_WINDOW); [reflexivity | lia]. }
    split; [exact Hc|].
    intros Hsoon; unfold st2, loop, update.
    destruct (acquire_timestamps rd' st1) as [-> ->].
    destruct (acquire_agc rd' st1) as [Hd Hp].
    assert (Hn : peakCount (acquire rd' st1) = peakCount st1).
    { unfold acquire; destruct (blockRms 100000 rd'); reflexivity. }
    rewrite Hc.
    destruct (Z.geb_spec (Int.usub32 now' now) CALIBRATION_WINDOW); [lia|].
    destruct (_ >? _)%Z; cbn [fst set_lastUpdate dynamicScaleFactor
                              peakHistory peakCount lastCalibration];
      rewrite ?Hd, ?Hp, ?Hn;
      rewrite (proj2 (acquire_timestamps rd' st1)), Hc; auto.
Qed.

(** Power-on, a tick with recalibration at 5000 ms, an iteration 3 ms
    later. *)
Lemma ticks_keep_distance_witness :
  (Int.usub32 5000 (lastUpdate initial_state) > UPDATE_INTERVAL)%Z /\
  (Int.usub32 5003 5000 <= UPDATE_INTERVAL)%Z /\
  snd (loop 5003 failedRead (fst (loop 5000 failedRead initial_state)))
  = mkOutput None [] /\
  lastCalibration (fst (loop 5000 failedRead initial_state)) = 5000%Z /\
  dynamicScaleFactor
    (fst (loop 5003 failedRead (fst (loop 5000 failedRead initial_state))))
  = dynamicScaleFactor (fst (loop 5000 failedRead initial_state)).
Proof.
  assert (H1 : (Int.usub32 5000 (lastUpdate initial_state)
                > UPDATE_INTERVAL)%Z) by reflexivity.
  assert (H2 : (Int.usub32 5003 5000 <= UPDATE_INTERVAL)%Z)
    by (vm_compute; discriminate).
  assert (H3 : (Int.usub32 5000 (lastCalibration initial_state)
                >= CALIBRATION_WINDOW)%Z) by (vm_compute; discriminate).
  assert (H4 : (Int.usub32 5003 5000 < CALIBRATION_WINDOW)%Z) by reflexivity.
  destruct (ticks_keep_distance 5000 5003 failedRead failedRead
              initial_state H1) as [Ha Hb].
  destruct (Hb H3) as [Hc Hd].
  split; [exact H1|].
  split; [exact H2|].
  split; [exact (Ha H2)|].
  split; [exact Hc|].
  exact (proj1 (Hd H4)).
Defined.

(** X16. The elapsed time the loop computes survives the wrap of
    [millis()]: for two 32-bit readings, [now] taken [d] ms after [last]
    with [d] below 2^32, the unsigned difference is [d], also when [now] has
    wrapped past 2^32 in between. *)
Theorem elapsed_across_wrap :
  forall last d : Z,
    (0 <= last < 2 ^ 32)%Z -> (0 <= d < 2 ^ 32)%Z ->
    let now := ((last + d) mod 2 ^ 32)%Z in
    Int.usub32 now last = d.
Proof.
  intros last d Hl Hd now; subst now; unfold Int.usub32.
  rewrite Zminus_mod_idemp_l.
  replace (last + d - last)%Z with d by lia.
  apply Z.mod_small; exact Hd.
Qed.

(** [lastUpdate] 3 ms before the wrap, [now] 4 ms after it. *)
Lemma elapsed_across_wrap_witness :
  (0 <= 4294967293 < 2 ^ 32)%Z /\ (0 <= 7 < 2 ^ 32)%Z /\
  Int.usub32 4 4294967293 = 7%Z.
Proof.
  assert (H1 : (0 <= 4294967293 < 2 ^ 32)%Z) by lia.
  assert (H2 : (0 <= 7 < 2 ^ 32)%Z) by lia.
  split; [exact H1|]; split; [exact H2|].
  exact (elapsed_across_wrap 4294967293 7 H1 H2).
Defined.

(** ** The shape of a frame *)

Lemma ordinals_forall (n : Z) (p : Z -> bool) :
  forallb p (ordinals n) = true ->
  forall i : Z, (0 <= i < n)%Z -> p i = true.
Proof.
  intros H i Hi; rewrite forallb_forall in H; apply H, ordinals_In, Hi.
Qed.

Lemma drawLeds_pixel (n idx : Z) :
  (0 <= n <= 60)%Z -> (0 <= idx < 60)%Z ->
  array_get 0%Z (drawLeds n) idx =
  if ((30 - n / 2 <=? idx) && (idx <? 30 + (n + 1) / 2))%Z
  then ledColor idx else 0%Z.
Proof.
  intros Hn Hidx.
  assert (H : forallb
                (fun k =>
                   forallb
                     (fun i =>
                        array_get 0 (drawLeds k) i =?
                        (if (30 - k / 2 <=? i) && (i <? 30 + (k + 1) / 2)
                         then ledColor i else 0))%Z
                     (ordinals 60))
                (ordinals 61) = true) by (vm_compute; reflexivity).
  apply Z.eqb_eq.
  apply (ordinals_forall 60 _ (ordinals_forall 61 _ H n ltac:(lia)) idx Hidx).
Qed.

(** X10. The drawing loop never addresses a pixel outside the strip and
    never addresses a pixel twice, so its bounds check never fails.  With
    [n] pixels to light, the lit pixels are the run from [30 - n/2] to
    [29 + (n+1)/2] around the midpoint and every other pixel is black; a lit
    pixel is green within 9 pixels of pixel 30, yellow from 10 to 19 and
    red from 20 on.  This holds for the frame of every state. *)
Theorem lit_pixels_form_a_run :
  (forall i : Z, (0 <= i < LED_COUNT)%Z -> (0 <= ledIndex i < LED_COUNT)%Z) /\
  (forall i j : Z, (0 <= i < LED_COUNT)%Z -> (0 <= j < LED_COUNT)%Z ->
                   ledIndex i = ledIndex j -> i = j) /\
  (forall idx : Z, (0 <= idx < LED_COUNT)%Z ->
     ledColor idx = if (Z.abs (idx - 30) <=? 9)%Z then 0x00FF00%Z
                    else if (Z.abs (idx - 30) <=? 19)%Z then 0xFFFF00%Z
                         else 0xFF0000%Z) /\
  (forall (st : State) (idx : Z), (0 <= idx < LED_COUNT)%Z ->
     let n := numLedsToLight (smoothVolume st) in
     array_get 0%Z (updateLedsByVolume st) idx =
     if ((30 - n / 2 <=? idx) && (idx <? 30 + (n + 1) / 2))%Z
     then ledColor idx else 0%Z).
Proof.
  unfold LED_COUNT.
  split.
  { intros i Hi.
    assert (H : forallb (fun k => (0 <=? ledIndex k) && (ledIndex k <? 60))%Z
                        (ordinals 60) = true) by (vm_compute; reflexivity).
    pose proof (ordinals_forall 60 _ H i Hi) as Hk.
    apply andb_true_iff in Hk; destruct Hk as [H1 H2].
    apply Z.leb_le in H1; apply Z.ltb_lt in H2; lia. }
  split.
  { intros i j Hi Hj Heq.
    assert (H : forallb
                  (fun a => forallb
                              (fun b => negb (ledIndex a =? ledIndex b)
                                        || (a =? b))%Z
                              (ordinals 60))
                  (ordinals 60) = true) by (vm_compute; reflexivity).
    pose proof (ordinals_forall 60 _ (ordinals_forall 60 _ H i Hi) j Hj) as Hk.
    apply orb_true_iff in Hk; destruct Hk as [Hk | Hk].
    - apply negb_true_iff, Z.eqb_neq in Hk; contradiction.
    - apply Z.eqb_eq, Hk. }
  split.
  { intros idx Hidx.
    assert (H : forallb
                  (fun k => ledColor k =?
                            (if Z.abs (k - 30) <=? 9 then 0x00FF00
                             else if Z.abs (k - 30) <=? 19 then 0xFFFF00
                                  else 0xFF0000))%Z
                  (ordinals 60) = true) by (vm_compute; reflexivity).
    apply Z.eqb_eq, (ordinals_forall 60 _ H idx Hidx). }
  intros st idx Hidx; cbv zeta; unfold updateLedsByVolume.
  apply drawLeds_pixel; [|exact Hidx].
  pose proof (numLedsToLight_range (smoothVolume st)) as Hr.
  unfold LED_COUNT in Hr; exact Hr.
Qed.

(** Ordinals 58 and 59, pixel 45 of the settled state's frame. *)
Lemma lit_pixels_form_a_run_witness :
  (0 <= ledIndex 59 < LED_COUNT)%Z /\
  (ledIndex 58 = ledIndex 59 -> 58 = 59)%Z /\
  ledColor 45 = 0xFFFF00%Z /\
  array_get 0%Z (updateLedsByVolume settledState) 45 =
  (let n := numLedsToLight 2250 in
   if ((30 - n / 2 <=? 45) && (45 <? 30 + (n + 1) / 2))%Z
   then ledColor 45 else 0%Z).
Proof.
  destruct lit_pixels_form_a_run as (Hin & Hinj & Hcol & Hpix).
  unfold LED_COUNT in *.
  split; [apply Hin; lia|].
  split; [apply Hinj; lia|].
  split; [apply (Hcol 45%Z); lia|].
  apply (Hpix settledState 45%Z); lia.
Defined.

(** X11. At or below MIN_VOLUME the frame is all black.  Above MIN_VOLUME,
    however little, at least one pixel is lit and at most 60, and the
    midpoint pixel 30 is lit green. *)
Theorem threshold_lights_centre :
  forall st : State,
    (smoothVolume st <= IZR MIN_VOLUME ->
     updateLedsByVolume st = repeat 0%Z 60) /\
    (smoothVolume st > IZR MIN_VOLUME ->
     (1 <= numLedsToLight (smoothVolume st) <= 60)%Z /\
     array_get 0%Z (updateLedsByVolume st) 30 = 0x00FF00%Z).
Proof.
  intros st; split.
  - intros Hlow; unfold updateLedsByVolume, numLedsToLight.
    destruct (Rgt_dec (smoothVolume st) (IZR MIN_VOLUME)); [lra|].
    reflexivity.
  - intros Hhigh.
    assert (Hn : (1 <= numLedsToLight (smoothVolume st) <= 60)%Z).
    { unfold numLedsToLight, LED_COUNT.
      destruct (Rgt_dec (smoothVolume st) (IZR MIN_VOLUME)); [|lra].
      destruct (Rge_dec _ _); [lia|].
      apply constrainZ_range; lia. }
    split; [exact Hn|].
    unfold updateLedsByVolume.
    rewrite drawLeds_pixel by lia.
    set (n := numLedsToLight (smoothVolume st)) in *.
    assert (H1 : (0 <= n / 2)%Z) by (apply Z.div_pos; lia).
    assert (H2 : (1 <= (n + 1) / 2)%Z)
      by (apply Z.div_le_lower_bound; lia).
    destruct (Z.leb_spec (30 - n / 2) 30); [|lia].
    destruct (Z.ltb_spec 30 (30 + (n + 1) / 2)); [|lia].
    reflexivity.
Qed.

(** Power-on (level 0) and the settled state (level 2250). *)
Lemma threshold_lights_centre_witness :
  smoothVolume initial_state <= IZR MIN_VOLUME /\
  updateLedsByVolume initial_state = repeat 0%Z 60 /\
  smoothVolume settledState > IZR MIN_VOLUME /\
  array_get 0%Z (updateLedsByVolume settledState) 30 = 0x00FF00%Z.
Proof.
  assert (H1 : smoothVolume initial_state <= IZR MIN_VOLUME)
    by (unfold MIN_VOLUME; simpl; lra).
  assert (H2 : smoothVolume settledState > IZR MIN_VOLUME)
    by (unfold MIN_VOLUME; simpl; lra).
  split; [exact H1|].
  split; [exact (proj1 (threshold_lights_centre initial_state) H1)|].
  split; [exact H2|].
  exact (proj2 (proj2 (threshold_lights_centre settledState) H2)).
Defined.

(** ** The RMS value of a block *)

Lemma square_between (s lo hi : Z) :
  (0 <= lo)%Z -> (lo <= Z.abs s <= hi)%Z ->
  IZR lo * IZR lo <= IZR (s * s) <= IZR hi * IZR hi.
Proof.
  intros Hlo Hs; rewrite <- !mult_IZR; split; apply IZR_le; nia.
Qed.

Lemma sqrt_mean_between (l : list R) (lo hi : R) :
  0 <= lo -> lo <= hi -> l <> [] ->
  Forall (fun x => lo * lo <= x <= hi * hi) l ->
  lo <= sqrt (fold_right Rplus 0 l / INR (List.length l)) <= hi.
Proof.
  intros Hlo Hhi Hne Hl.
  pose proof (sum_bounds _ _ _ Hl) as Hs.
  assert (Hn : 0 < INR (List.length l)).
  { apply lt_0_INR; destruct l; [contradiction | simpl; lia]. }
  set (n := INR (List.length l)) in *; set (s := fold_right Rplus 0 l) in *.
  assert (Hq : lo * lo <= s / n <= hi * hi).
  { assert (Hsn : s / n * n = s) by (field; lra).
    split; apply Rmult_le_reg_r with n; try exact Hn; rewrite Hsn; lra. }
  split.
  - apply Rle_trans with (sqrt (lo * lo));
      [rewrite sqrt_square by exact Hlo; lra | apply sqrt_le_1_alt; lra].
  - apply Rle_trans with (sqrt (hi * hi));
      [apply sqrt_le_1_alt; lra | rewrite sqrt_square by lra; lra].
Qed.

(** X12. When a block yields an RMS value and every kept sample has
    absolute value at most 46340 (no square overflows), the RMS lies
    between the smallest and the largest absolute value among the kept
    samples: if every kept sample has absolute value between [lo] and [hi],
    so has the RMS.  In particular the RMS is at least 0 and never exceeds
    the largest kept sample. *)
Theorem rms_within_samples :
  forall (limit : Z) (rd : Read) (r : R) (lo hi : Z),
    blockRms limit rd = Some r ->
    Forall (fun s => (Z.abs s <= 46340)%Z) (kept limit (block rd)) ->
    (0 <= lo)%Z ->
    Forall (fun s => (lo <= Z.abs s <= hi)%Z) (kept limit (block rd)) ->
    IZR lo <= r <= IZR hi.
Proof.
  intros limit rd r lo hi Hr Hfit Hlo Hb.
  destruct (blockRms_value limit rd r Hr) as [Hne ->].
  rewrite (squares_exact _ Hfit).
  assert (Hlh : (lo <= hi)%Z).
  { destruct (kept limit (block rd)) as [|k ks]; [contradiction|].
    inversion Hb; subst; lia. }
  rewrite <- (length_map (fun s => IZR (s * s))).
  apply sqrt_mean_between.
  - apply IZR_le; exact Hlo.
  - apply IZR_le; exact Hlh.
  - destruct (kept limit (block rd)); [contradiction | discriminate].
  - apply Forall_map; eapply Forall_impl; [|exact Hb].
    intros s Hs; cbv beta; apply square_between; assumption.
Qed.

(** A block of three samples: 100, -300 and 200 after the shift. *)
Lemma rms_within_samples_witness :
  let rd := mkRead true 12 [1638400%Z; (-4915200)%Z; 3276800%Z] in
  exists r : R, blockRms 100000 rd = Some r /\ 100 <= r <= 300.
Proof.
  intros rd.
  eexists; split; [reflexivity|].
  apply (rms_within_samples 100000 rd _ 100 300);
    [reflexivity | | lia |];
    repeat constructor; vm_compute; discriminate.
Defined.

(** X13. The square of a kept sample is computed in [int32_t].  For a
    shifted sample of absolute value from 46341 to 65535 the product
    exceeds 2^31 - 1; with the wrap-around of the target's multiply it
    comes out as [s * s - 2^32], a negative number, so such a sample, which
    the spike filter of [loop] lets through, lowers the running sum of
    squares while it is counted as valid. *)
Theorem square_overflow_is_negative :
  forall (limit : Z) (acc : R * Z) (raw : Z),
    let s := Int.asr14 raw in
    (46341 <= Z.abs s <= 65535)%Z ->
    (Z.abs s < limit)%Z ->
    Int.mul32 s s = (s * s - 2 ^ 32)%Z /\
    (Int.mul32 s s < 0)%Z /\
    fst (accumulate limit acc raw) < fst acc /\
    snd (accumulate limit acc raw) = (snd acc + 1)%Z.
Proof.
  intros limit acc raw s Hs Hlim.
  assert (Hsq : (2147483648 <= s * s < 4294967296)%Z) by nia.
  assert (Hm : Int.mul32 s s = (s * s - 2 ^ 32)%Z).
  { unfold Int.mul32, Int.to_int32, Int.wrap.
    change (2 ^ (32 - 1))%Z with 2147483648%Z.
    change (2 ^ 32)%Z with 4294967296%Z.
    replace (s * s + 2147483648)%Z
      with ((s * s - 2147483648) + 1 * 4294967296)%Z by lia.
    rewrite Z.mod_add, Z.mod_small by lia; lia. }
  assert (Hneg : (Int.mul32 s s < 0)%Z).
  { rewrite Hm; change (2 ^ 32)%Z with 4294967296%Z; lia. }
  split; [exact Hm|]; split; [exact Hneg|].
  unfold accumulate; fold s.
  destruct (Z.ltb_spec (Z.abs s) limit); [|lia].
  cbn [fst snd]; split; [|reflexivity].
  apply IZR_lt in Hneg; lra.
Qed.

(** A sample of 50000 after the shift, in [loop]. *)
Lemma square_overflow_is_negative_witness :
  (46341 <= Z.abs (Int.asr14 819200000) <= 65535)%Z /\
  Int.mul32 50000 50000 = (50000 * 50000 - 2 ^ 32)%Z /\
  fst (accumulate 100000 (0, 0%Z) 819200000) < 0.
Proof.
  assert (H1 : (46341 <= Z.abs (Int.asr14 819200000) <= 65535)%Z)
    by (vm_compute; split; discriminate).
  assert (H2 : (Z.abs (Int.asr14 819200000) < 100000)%Z) by reflexivity.
  destruct (square_overflow_is_negative 100000 (0, 0%Z) 819200000 H1 H2)
    as (Ha & _ & Hb & _).
  split; [exact H1|]; split; [exact Ha | exact Hb].
Defined.

(** ** The gain normalizer as a function of the input level *)

(** X14. The value after the noise gate is 0 or at least 100, and never
    more than the excess of the RMS over the baseline.  A louder block
    never gives a smaller value: the gated value is monotone in the RMS,
    and for a scale factor of at least 0 so is the normalized volume.  An
    RMS less than 100 above the baseline gives the normalized volume 0
    whatever the scale factor. *)
Theorem gain_is_monotone :
  forall rms1 rms2 baseline scale : R,
    gated (calibratedVolumeOf rms1 baseline) /\
    calibratedVolumeOf rms1 baseline <= Rmax 0 (rms1 - baseline) /\
    (rms1 - baseline < 100 ->
     rawVolumeOf (calibratedVolumeOf rms1 baseline) scale = 0) /\
    (rms1 <= rms2 ->
     calibratedVolumeOf rms1 baseline <= calibratedVolumeOf rms2 baseline /\
     (0 <= scale ->
      rawVolumeOf (calibratedVolumeOf rms1 baseline) scale
      <= rawVolumeOf (calibratedVolumeOf rms2 baseline) scale)).
Proof.
  intros rms1 rms2 baseline scale.
  split.
  { unfold gated, calibratedVolumeOf, c_max; cases_R. }
  split.
  { unfold calibratedVolumeOf, c_max, Rmax; cases_R. }
  split.
  { intros Hq.
    assert (Hc : calibratedVolumeOf rms1 baseline = 0)
      by (unfold calibratedVolumeOf, c_max; cases_R).
    rewrite Hc; unfold rawVolumeOf, constrain, MAX_VOLUME_TARGET; cases_R. }
  intros Hle.
  assert (Hc : calibratedVolumeOf rms1 baseline
               <= calibratedVolumeOf rms2 baseline)
    by (unfold calibratedVolumeOf, c_max; cases_R).
  split; [exact Hc|].
  intros Hs.
  assert (Hp : calibratedVolumeOf rms1 baseline * scale
               <= calibratedVolumeOf rms2 baseline * scale)
    by (apply Rmult_le_compat_r; assumption).
  unfold rawVolumeOf, constrain, MAX_VOLUME_TARGET; cases_R.
Qed.

(** Baseline 1000, scale 2: levels 1050 (gated) and 1500. *)
Lemma gain_is_monotone_witness :
  1050 - 1000 < 100 /\
  rawVolumeOf (calibratedVolumeOf 1050 1000) 2 = 0 /\
  rawVolumeOf (calibratedVolumeOf 1050 1000) 2
  <= rawVolumeOf (calibratedVolumeOf 1500 1000) 2.
Proof.
  destruct (gain_is_monotone 1050 1500 1000 2) as (_ & _ & Hq & Hm).
  assert (H1 : 1050 - 1000 < 100) by lra.
  assert (H2 : 1050 <= 1500) by lra.
  assert (H3 : 0 <= 2) by lra.
  split; [exact H1|]; split; [exact (Hq H1)|].
  exact (proj2 (Hm H2) H3).
Defined.

(** ** The window's peak *)

Lemma scan_max_spec (l : list R) (m : R) :
  let r := fold_left (fun m x => if Rgt_dec x m then x else m) l m in
  m <= r /\ Forall (fun x => x <= r) l /\ (r = m \/ In r l).
Proof.
  revert m; induction l as [|h t IH]; intros m; cbn [fold_left].
  - split; [lra|]; split; [constructor | left; reflexivity].
  - destruct (Rgt_dec h m) as [G|G].
    + destruct (IH h) as (H1 & H2 & H3).
      split; [cbv zeta in *; lra|].
      split; [constructor; assumption|].
      destruct H3 as [-> | H3]; right; [left; reflexivity | right; exact H3].
    + destruct (IH m) as (H1 & H2 & H3).
      split; [exact H1|].
      split; [constructor; [cbv zeta in *; lra | assumption]|].
      destruct H3 as [H3 | H3]; [left; exact H3 | right; right; exact H3].
Qed.

Lemma In_firstn_keep {A : Type} (x : A) (n : nat) (l : list A) :
  In x (firstn n l) -> In x l.
Proof.
  revert n; induction l as [|h t IH]; intros [|n]; simpl; try tauto.
  intros [H | H]; [left; exact H | right; eapply IH; exact H].
Qed.

(** X15. The scan of the recalibration finds the maximum of the 500 slots
    of the volume history, floored at 0: its result is at least 0, at least
    every slot, and is 0 or the value of a slot.  A peak is recorded only
    when that maximum exceeds twice the baseline; otherwise the state of
    the peak history is untouched. *)
Theorem window_peak_is_maximum :
  forall st : State,
    0 <= currentMaxDetected st /\
    Forall (fun x => x <= currentMaxDetected st)
           (firstn 500 (rawVolumeHistory st)) /\
    (currentMaxDetected st = 0 \/
     In (currentMaxDetected st) (rawVolumeHistory st)) /\
    (recordPeak st = st \/
     currentMaxDetected st > baselineNoise st * 2 /\
     recordPeak st = addPeakToHistory (currentMaxDetected st) st).
Proof.
  intros st; unfold currentMaxDetected.
  destruct (scan_max_spec (firstn (Z.to_nat VOLUME_SAMPLES)
                                  (rawVolumeHistory st)) 0)
    as (H1 & H2 & H3).
  split; [exact H1|].
  split; [exact H2|].
  split.
  - destruct H3 as [H3 | H3]; [left; exact H3|].
    right; eapply In_firstn_keep; exact H3.
  - unfold recordPeak, currentMaxDetected.
    destruct (Rgt_dec _ _) as [G|G]; [right; split; [exact G | reflexivity]|].
    left; reflexivity.
Qed.

(** ** The peak history as a circular buffer *)

Lemma set_nth_other {A : Type} (d : A) (l : list A) (n m : nat) (x : A) :
  n <> m -> nth m (set_nth l n x) d = nth m l d.
Proof.
  revert n m; induction l as [|h t IH]; intros [|n] [|m] Hnm; simpl;
    try reflexivity; try contradiction.
  apply IH; lia.
Qed.

Lemma array_get_set_other {A : Type} (d : A) (a : list A) (i j : Z) (x : A) :
  (0 <= i)%Z -> (0 <= j)%Z -> i <> j ->
  array_get d (array_set a i x) j = array_get d a j.
Proof.
  intros Hi Hj Hij; unfold array_get, array_set.
  destruct (Z.ltb_spec i 0), (Z.ltb_spec j 0); try lia.
  apply set_nth_other; lia.
Qed.

Lemma firstn_set_nth_snoc {A : Type} (l : list A) (k : nat) (x : A) :
  (k < List.length l)%nat ->
  firstn (S k) (set_nth l k x) = firstn k l ++ [x].
Proof.
  revert k; induction l as [|h t IH]; intros [|k] Hk; simpl in *; try lia.
  - reflexivity.
  - f_equal; apply IH; lia.
Qed.

(** X3. Recording a peak in a well-formed state writes it into the slot
    under the cursor and into no other slot, advances the cursor by one
    modulo 10, and raises the number of valid peaks by one up to the
    capacity 10, where it stays; the state remains well formed. *)
Theorem peak_insert_lookup :
  forall (peak : R) (st : State),
    wf st ->
    let st' := addPeakToHistory peak st in
    array_get 0 (peakHistory st') (peakIndex st) = peak /\
    (forall j : Z, (0 <= j < 10)%Z -> j <> peakIndex st ->
       array_get 0 (peakHistory st') j = array_get 0 (peakHistory st) j) /\
    peakIndex st' = ((peakIndex st + 1) mod 10)%Z /\
    peakCount st' = Z.min (peakCount st + 1) 10 /\
    (peakCount st <= peakCount st')%Z /\
    wf st'.
Proof.
  intros peak st Hwf st'; subst st'.
  pose proof (wf_addPeakToHistory peak st Hwf) as Hwf'.
  destruct Hwf as [_ _ _ _ Hlen Hidx Hcnt].
  unfold PEAK_HISTORY_SIZE in *; cbn [addPeakToHistory peakHistory peakIndex
                                      peakCount].
  split; [apply array_get_set; rewrite Hlen; lia|].
  split; [intros j Hj Hne; apply array_get_set_other; lia|].
  split; [unfold PEAK_HISTORY_SIZE; apply Z.rem_mod_nonneg; lia|].
  unfold PEAK_HISTORY_SIZE.
  destruct (Z.ltb_spec (peakCount st) 10);
    (split; [lia|]; split; [lia | exact Hwf']).
Qed.

(** The first peak after power-on. *)
Lemma peak_insert_lookup_witness :
  wf initial_state /\
  array_get 0 (peakHistory (addPeakToHistory 10000 initial_state)) 0 = 10000 /\
  peakCount (addPeakToHistory 10000 initial_state) = Z.min (0 + 1) 10.
Proof.
  destruct (peak_insert_lookup 10000 initial_state wf_initial_state)
    as (H1 & _ & _ & H2 & _).
  split; [exact wf_initial_state|]; split; [exact H1 | exact H2].
Defined.

Lemma addPeaks_cursor (ps : list R) (st : State) :
  wf st ->
  wf (addPeaks ps st) /\
  peakIndex (addPeaks ps st)
  = ((peakIndex st + Z.of_nat (List.length ps)) mod 10)%Z /\
  peakCount (addPeaks ps st)
  = Z.min (peakCount st + Z.of_nat (List.length ps)) 10.
Proof.
  revert st; induction ps as [|p t IH]; intros st Hwf.
  - pose proof (wf_peak_idx _ Hwf) as Hi; pose proof (wf_peak_count _ Hwf) as Hc.
    unfold PEAK_HISTORY_SIZE in *; cbn [addPeaks fold_left List.length].
    split; [exact Hwf|].
    split; [rewrite Z.add_0_r, Z.mod_small; lia | lia].
  - pose proof (wf_addPeakToHistory p st Hwf) as Hwf'.
    destruct (IH _ Hwf') as (H1 & H2 & H3).
    unfold addPeaks in *; cbn [fold_left].
    split; [exact H1|].
    rewrite H2, H3.
    pose proof (wf_peak_idx _ Hwf) as Hi; pose proof (wf_peak_count _ Hwf) as Hc.
    unfold PEAK_HISTORY_SIZE in *.
    cbn [addPeakToHistory peakIndex peakCount List.length].
    unfold PEAK_HISTORY_SIZE.
    rewrite Z.rem_mod_nonneg by lia.
    split.
    + rewrite Zplus_mod_idemp_l; f_equal; lia.
    + destruct (Z.ltb_spec (peakCount st) 10); lia.
Qed.

Lemma addPeaks_fill (ps : list R) (st : State) (k : nat) :
  wf st ->
  peakCount st = Z.of_nat k ->
  (ps <> [] -> peakIndex st = Z.of_nat k) ->
  (k + List.length ps <= 10)%nat ->
  firstn (k + List.length ps) (peakHistory (addPeaks ps st))
  = firstn k (peakHistory st) ++ ps.
Proof.
  revert st k; induction ps as [|p t IH]; intros st k Hwf Hc Hi Hle.
  - cbn [addPeaks fold_left List.length]; rewrite Nat.add_0_r, app_nil_r.
    reflexivity.
  - specialize (Hi ltac:(discriminate)).
    cbn [List.length] in Hle.
    pose proof (wf_addPeakToHistory p st Hwf) as Hwf'.
    pose proof (wf_peak_len _ Hwf) as Hlen.
    unfold PEAK_HISTORY_SIZE in Hlen.
    unfold addPeaks in *; cbn [fold_left List.length].
    replace (k + S (List.length t))%nat with (S k + List.length t)%nat by lia.
    rewrite (IH (addPeakToHistory p st) (S k) Hwf').
    + cbn [addPeakToHistory peakHistory]; rewrite Hi.
      unfold array_set.
      destruct (Z.ltb_spec (Z.of_nat k) 0); [lia|].
      rewrite Nat2Z.id, firstn_set_nth_snoc by (rewrite Hlen; simpl; lia).
      rewrite <- app_assoc; reflexivity.
    + cbn [addPeakToHistory peakCount]; rewrite Hc; unfold PEAK_HISTORY_SIZE.
      destruct (Z.ltb_spec (Z.of_nat k) 10); lia.
    + intros Hne; cbn [addPeakToHistory peakIndex]; rewrite Hi.
      unfold PEAK_HISTORY_SIZE.
      assert (List.length t <> 0)%nat by (destruct t; [contradiction | simpl; lia]).
      rewrite Z.rem_small by lia; lia.
    + lia.
Qed.

(** X2. Starting from a well-formed state with no recorded peak and the
    cursor at slot 0 (the state at power-on), recording a sequence of
    peaks leaves the number of valid peaks at the length of the sequence,
    capped at 10, and the cursor at that length modulo 10.  As long as at
    most 10 peaks have been recorded they occupy the first slots in the
    order of arrival, and [getAveragePeak] returns their arithmetic mean:
    the unused slots do not enter the average. *)
Theorem peak_history_fill :
  forall (ps : list R) (st : State),
    wf st -> peakCount st = 0%Z -> peakIndex st = 0%Z ->
    let st' := addPeaks ps st in
    peakCount st' = Z.min (Z.of_nat (List.length ps)) 10 /\
    peakIndex st' = (Z.of_nat (List.length ps) mod 10)%Z /\
    ((List.length ps <= 10)%nat ->
     firstn (List.length ps) (peakHistory st') = ps /\
     (ps <> [] -> getAveragePeak st' = Spec.mean ps)).
Proof.
  intros ps st Hwf Hc Hi st'; subst st'.
  destruct (addPeaks_cursor ps st Hwf) as (_ & H2 & H3).
  rewrite Hc, Z.add_0_l in H3; rewrite Hi, Z.add_0_l in H2.
  split; [exact H3|]; split; [exact H2|].
  intros Hle.
  assert (Hf : firstn (List.length ps) (peakHistory (addPeaks ps st)) = ps).
  { apply (addPeaks_fill ps st 0 Hwf Hc (fun _ => Hi) Hle). }
  split; [exact Hf|].
  intros Hne; unfold getAveragePeak, sumUpTo; rewrite H3.
  assert (Hn : (0 < List.length ps)%nat)
    by (destruct ps; [contradiction | simpl; lia]).
  rewrite Z.min_l by lia.
  destruct (Z.eqb_spec (Z.of_nat (List.length ps)) 0); [lia|].
  rewrite Nat2Z.id, Hf, fold_left_Rplus, <- INR_IZR_INZ.
  unfold Spec.mean; f_equal; lra.
Qed.

(** Two peaks after power-on. *)
Lemma peak_history_fill_witness :
  wf initial_state /\
  getAveragePeak (addPeaks [10000; 5000] initial_state)
  = Spec.mean [10000; 5000].
Proof.
  destruct (peak_history_fill [10000; 5000] initial_state wf_initial_state
              eq_refl eq_refl) as (_ & _ & H).
  split; [exact wf_initial_state|].
  apply H; [simpl; lia | discriminate].
Defined.

(** ** The range of the gain *)

Lemma calibratedVolumeOf_gated (rms baseline : R) :
  gated (calibratedVolumeOf rms baseline).
Proof. unfold gated, calibratedVolumeOf, c_max; cases_R. Qed.

Lemma sum_lower (lo : R) (l : list R) :
  Forall (fun x => lo <= x) l ->
  lo * INR (List.length l) <= fold_right Rplus 0 l.
Proof.
  induction 1 as [|h t Hh Ht IH].
  - simpl; lra.
  - change (List.length (h :: t)) with (S (List.length t)).
    rewrite S_INR; simpl; lra.
Qed.

Lemma averagePeak_floor (st : State) :
  wf st -> agcBounded st ->
  peakCount st = 0%Z \/ 100 <= getAveragePeak st.
Proof.
  intros Hwf Hb.
  destruct (Z.eq_dec (peakCount st) 0) as [H0 | H0]; [left; exact H0 | right].
  unfold getAveragePeak, sumUpTo.
  destruct (Z.eqb_spec (peakCount st) 0); [contradiction|].
  pose proof (wf_peak_count _ Hwf) as Hc; pose proof (wf_peak_len _ Hwf) as Hl.
  unfold PEAK_HISTORY_SIZE in *.
  pose proof (sum_lower 100 _ (agcb_peaks _ Hb)) as Hs.
  rewrite length_firstn, Hl, Nat.min_l in Hs by lia.
  rewrite INR_IZR_INZ, Z2Nat.id in Hs by lia.
  rewrite fold_left_Rplus.
  assert (Hp : 0 < IZR (peakCount st)) by (apply IZR_lt; lia).
  apply Rmult_le_reg_r with (IZR (peakCount st)); [exact Hp|].
  set (s := fold_right _ _ _) in *.
  replace ((0 + s) / IZR (peakCount st) * IZR (peakCount st)) with s
    by (field; lra).
  exact Hs.
Qed.

Lemma agcBounded_processRms (rms : R) (st : State) :
  agcBounded st -> agcBounded (processRms rms st).
Proof.
  intros [H1 H2 H3 H4 H5]; split;
    cbn [processRms baselineNoise rawVolumeHistory dynamicScaleFactor
         peakCount peakIndex peakHistory]; auto.
  apply array_set_Forall; [exact H2 | apply calibratedVolumeOf_gated].
Qed.

Lemma agcBounded_recordPeak (st : State) :
  wf st -> agcBounded st -> agcBounded (recordPeak st).
Proof.
  intros Hwf Hb; unfold recordPeak.
  destruct (Rgt_dec (currentMaxDetected st) (baselineNoise st * 2)) as [G|G];
    [|exact Hb].
  destruct Hb as [H1 H2 H3 H4 H5].
  assert (Hm : 100 <= currentMaxDetected st).
  { unfold currentMaxDetected in *.
    destruct (scan_max_spec (firstn (Z.to_nat VOLUME_SAMPLES)
                                    (rawVolumeHistory st)) 0)
      as (_ & _ & [H0 | Hin]); cbv zeta in *; [lra|].
    apply In_firstn_keep in Hin.
    rewrite Forall_forall in H2; destruct (H2 _ Hin) as [Hz | Hge]; lra. }
  pose proof (wf_peak_count _ Hwf) as Hc; pose proof (wf_peak_len _ Hwf) as Hl.
  pose proof (wf_peak_idx _ Hwf) as Hi.
  unfold PEAK_HISTORY_SIZE in *.
  split; cbn [addPeakToHistory baselineNoise rawVolumeHistory
              dynamicScaleFactor peakCount peakIndex peakHistory];
    unfold PEAK_HISTORY_SIZE; auto.
  - destruct (Z.ltb_spec (peakCount st) 10) as [Hlt | Hge]; [|lia].
    intros Hlt'; rewrite (H4 Hlt), Z.rem_small by lia; reflexivity.
  - destruct (Z.ltb_spec (peakCount st) 10) as [Hlt | Hge].
    + rewrite (H4 Hlt); unfold array_set.
      destruct (Z.ltb_spec (peakCount st) 0); [lia|].
      replace (Z.to_nat (peakCount st + 1)) with (S (Z.to_nat (peakCount st)))
        by lia.
      rewrite firstn_set_nth_snoc by lia.
      apply Forall_app; split; [exact H5|].
      constructor; [exact Hm | constructor].
    + replace (peakCount st) with 10%Z in * by lia.
      rewrite firstn_all2 in H5 by lia.
      apply Forall_firstn_keep, array_set_Forall; assumption.
Qed.

Lemma agcBounded_recalibrate (now : Z) (st : State) :
  wf st -> agcBounded st -> agcBounded (recalibrate now st).
Proof.
  intros Hwf Hb.
  pose proof (agcBounded_recordPeak st Hwf Hb) as Hb1.
  pose proof (wf_recordPeak st Hwf) as Hwf1.
  pose proof (averagePeak_floor _ Hwf1 Hb1) as Havg.
  destruct Hb1 as [H1 H2 H3 H4 H5].
  split; cbn [recalibrate baselineNoise rawVolumeHistory dynamicScaleFactor
              peakCount peakIndex peakHistory]; auto.
  destruct (Rgt_dec (getAveragePeak (recordPeak st)) 0) as [G|G];
    [|exact H3].
  destruct Havg as [H0 | Hge].
  { unfold getAveragePeak in G; rewrite H0 in G; cbn in G; lra. }
  set (a := getAveragePeak (recordPeak st)) in *.
  assert (Hq : 0 < IZR MAX_VOLUME_TARGET / a <= 30).
  { unfold MAX_VOLUME_TARGET; split.
    - apply Rdiv_lt_0_compat; lra.
    - apply Rmult_le_reg_r with a; [lra|].
      replace (3000 / a * a) with 3000 by (field; lra); lra. }
  lra.
Qed.

Lemma agcBounded_loop (now : Z) (rd : Read) (st : State) :
  wf st -> agcBounded st -> agcBounded (fst (loop now rd st)).
Proof.
  intros Hwf Hb; unfold loop.
  assert (Ha : agcBounded (acquire rd st)).
  { unfold acquire; destruct (blockRms 100000 rd);
      auto using agcBounded_processRms. }
  pose proof (wf_acquire rd st Hwf) as Hwa.
  unfold update.
  destruct (_ >? _)%Z; [|exact Ha].
  destruct (_ >=? _)%Z; cbn [fst].
  - destruct (agcBounded_recalibrate now _ Hwa Ha) as [H1 H2 H3 H4 H5].
    split; assumption.
  - destruct Ha as [H1 H2 H3 H4 H5]; split; assumption.
Qed.

Lemma agcBounded_setup (reads : nat -> Read) : agcBounded (setup reads).
Proof.
  pose proof (setup_baseline_nonneg reads) as Hb.
  unfold setup, calibrateBaseline in *.
  destruct (calibrationTotals reads) as [t v].
  destruct (0 <? v)%Z; split;
    cbn [fst set_baselineNoise initial_state baselineNoise rawVolumeHistory
         dynamicScaleFactor peakCount peakIndex peakHistory] in *;
    try exact Hb; try lra; try reflexivity;
    try (apply Forall_forall; intros x Hx; apply repeat_spec in Hx;
         left; exact Hx);
    constructor.
Qed.

(** X4. After [setup] and any number of iterations of [loop], on any
    inputs, [dynamicScaleFactor] is positive and at most 30.  Every slot of
    the volume history is 0 or at least 100, every recorded peak is at least
    100, and so [averagePeak] is at least 100 as soon as one peak has been
    recorded. *)
Theorem scale_stays_bounded :
  forall (reads : nat -> Read) (inputs : list (Z * Read)),
    let st := run inputs (setup reads) in
    0 < dynamicScaleFactor st <= 30 /\
    Forall (fun x => x = 0 \/ 100 <= x) (rawVolumeHistory st) /\
    Forall (fun p => 100 <= p)
           (firstn (Z.to_nat (peakCount st)) (peakHistory st)) /\
    (peakCount st = 0%Z \/ 100 <= getAveragePeak st).
Proof.
  intros reads inputs st.
  assert (H : wf st /\ agcBounded st).
  { subst st; apply (run_invariant (fun s => wf s /\ agcBounded s)).
    - intros n r s [Hw Hb]; split; [apply wf_loop, Hw|].
      apply agcBounded_loop; assumption.
    - split; [apply wf_setup | apply agcBounded_setup]. }
  destruct H as [Hwf Hb].
  split; [apply (agcb_scale _ Hb)|].
  split; [apply (agcb_history _ Hb)|].
  split; [apply (agcb_peaks _ Hb)|].
  apply averagePeak_floor; assumption.
Qed.

(** ** A run in which the gate stays closed *)

Lemma sumUpTo_zeros (n : Z) (l : list R) :
  Forall (fun x => x = 0) l -> sumUpTo n l = 0.
Proof.
  intros H; unfold sumUpTo; rewrite fold_left_Rplus.
  pose proof (Forall_firstn_keep _ (Z.to_nat n) l H) as Hf.
  induction Hf as [|h t Hh Ht IH]; simpl in *; lra.
Qed.

Lemma scan_max_zeros (l : list R) :
  Forall (fun x => x = 0) l ->
  fold_left (fun m x => if Rgt_dec x m then x else m) l 0 = 0.
Proof.
  induction 1 as [|h t Hh Ht IH]; [reflexivity|].
  cbn [fold_left]; subst h.
  destruct (Rgt_dec 0 0); [lra | exact IH].
Qed.

Lemma silent_processRms (b rms : R) (st : State) :
  rms - b < 100 -> silent b st -> silent b (processRms rms st).
Proof.
  intros Hq [Hb Hf Hh Hv Hp Hs Hd Hc].
  assert (Hcal : calibratedVolumeOf rms (baselineNoise st) = 0).
  { rewrite Hb; unfold calibratedVolumeOf, c_max; cases_R. }
  assert (Hraw : rawVolumeOf 0 (dynamicScaleFactor st) = 0).
  { unfold rawVolumeOf, constrain, MAX_VOLUME_TARGET; cases_R. }
  assert (Hf' : Forall (fun x => x = 0)
                       (array_set (volumeFilter st) (filterIndex st) 0))
    by (apply array_set_Forall; [exact Hf | reflexivity]).
  assert (Hvol : limitJump (previousVolume st)
                   (sumUpTo FILTER_SIZE
                      (array_set (volumeFilter st) (filterIndex st) 0)
                    / IZR FILTER_SIZE) = 0).
  { rewrite (sumUpTo_zeros _ _ Hf'), Hp.
    unfold limitJump, MAX_VOLUME_TARGET, FILTER_SIZE.
    replace (0 / 5 - 0) with 0 by lra; rewrite Rabs_R0.
    destruct (Rgt_dec 0 (3000 * 0.3)); lra. }
  split; cbn [processRms baselineNoise volumeFilter rawVolumeHistory volume
              previousVolume smoothVolume dynamicScaleFactor peakCount];
    rewrite ?Hcal, ?Hraw, ?Hvol; auto.
  - apply array_set_Forall; [exact Hh | reflexivity].
  - rewrite Hs; unfold SMOOTHING_FACTOR; lra.
Qed.

Lemma silent_recalibrate (b : R) (now : Z) (st : State) :
  0 <= b -> silent b st -> silent b (recalibrate now st).
Proof.
  intros Hb0 Hs.
  assert (Hr : recordPeak st = st).
  { unfold recordPeak, currentMaxDetected.
    rewrite scan_max_zeros
      by (apply Forall_firstn_keep, (silent_history _ _ Hs)).
    rewrite (silent_baseline _ _ Hs).
    destruct (Rgt_dec 0 (b * 2)); [lra | reflexivity]. }
  assert (Ha : getAveragePeak st = 0).
  { unfold getAveragePeak; now rewrite (silent_count _ _ Hs). }
  destruct Hs as [H1 H2 H3 H4 H5 H6 H7 H8].
  unfold recalibrate; rewrite Hr, Ha.
  destruct (Rgt_dec 0 0); [lra|].
  split; cbn; assumption.
Qed.

Lemma silent_loop (b : R) (now : Z) (rd : Read) (st : State) :
  0 <= b -> quiet b rd -> silent b st -> silent b (fst (loop now rd st)).
Proof.
  intros Hb0 Hq Hs; unfold loop.
  assert (Ha : silent b (acquire rd st)).
  { unfold acquire, quiet in *; destruct (blockRms 100000 rd);
      auto using silent_processRms. }
  unfold update.
  destruct (_ >? _)%Z; [|exact Ha].
  destruct (_ >=? _)%Z; cbn [fst].
  - destruct (silent_recalibrate b now _ Hb0 Ha) as [H1 H2 H3 H4 H5 H6 H7 H8].
    split; assumption.
  - destruct Ha as [H1 H2 H3 H4 H5 H6 H7 H8]; split; assumption.
Qed.

Lemma silent_setup (reads : nat -> Read) :
  silent (baselineNoise (setup reads)) (setup reads).
Proof.
  unfold setup, calibrateBaseline.
  destruct (calibrationTotals reads) as [t v].
  destruct (0 <? v)%Z; split;
    cbn [fst set_baselineNoise initial_state baselineNoise volumeFilter
         rawVolumeHistory volume previousVolume smoothVolume
         dynamicScaleFactor peakCount];
    try reflexivity;
    apply Forall_forall; intros x Hx; apply repeat_spec in Hx; exact Hx.
Qed.

Lemma silent_run (b : R) (inputs : list (Z * Read)) (st : State) :
  0 <= b ->
  Forall (fun i => quiet b (snd i)) inputs ->
  silent b st -> silent b (run inputs st).
Proof.
  intros Hb0 Hq; revert st.
  induction Hq as [|[now rd] t Hh Ht IH]; intros st Hs; [exact Hs|].
  unfold run in *; cbn [fold_left fst snd] in *.
  apply IH, silent_loop; assumption.
Qed.

(** X6. While the gate stays closed nothing moves.  If in every iteration
    since [setup] the read failed, or gave no valid sample, or gave an RMS
    less than 100 above the calibrated baseline, then [volume] and
    [smoothVolume] are still 0, no peak has been recorded,
    [dynamicScaleFactor] is still its initial 2.0, and the frame is all
    black. *)
Theorem quiet_run_stays_dark :
  forall (reads : nat -> Read) (inputs : list (Z * Read)),
    Forall (fun i => quiet (baselineNoise (setup reads)) (snd i)) inputs ->
    let st := run inputs (setup reads) in
    volume st = 0 /\ smoothVolume st = 0 /\
    Forall (fun x => x = 0) (volumeFilter st) /\
    Forall (fun x => x = 0) (rawVolumeHistory st) /\
    peakCount st = 0%Z /\ dynamicScaleFactor st = 2 /\
    updateLedsByVolume st = repeat 0%Z 60.
Proof.
  intros reads inputs Hq st.
  pose proof (silent_run _ inputs (setup reads)
                (setup_baseline_nonneg reads) Hq (silent_setup reads)) as Hs.
  fold st in Hs; destruct Hs as [H1 H2 H3 H4 H5 H6 H7 H8].
  repeat split; try assumption.
  unfold updateLedsByVolume, numLedsToLight; rewrite H6.
  destruct (Rgt_dec 0 (IZR MIN_VOLUME)); [unfold MIN_VOLUME in *; lra|].
  reflexivity.
Qed.

(** A failed calibration (baseline 15000), then a failed read and a full
    block of level 2250, across a recalibration. *)
Lemma quiet_run_stays_dark_witness :
  let reads := fun _ : nat => failedRead in
  let inputs := [(6%Z, failedRead); (5000%Z, steadyRead)] in
  Forall (fun i => quiet (baselineNoise (setup reads)) (snd i)) inputs /\
  dynamicScaleFactor (run inputs (setup reads)) = 2 /\
  updateLedsByVolume (run inputs (setup reads)) = repeat 0%Z 60.
Proof.
  intros reads inputs.
  assert (Hq : Forall (fun i => quiet (baselineNoise (setup reads)) (snd i))
                      inputs).
  { constructor; [exact I|].
    constructor; [|constructor].
    unfold quiet; cbn [snd]; rewrite blockRms_steadyRead.
    change (baselineNoise (setup reads)) with 15000; lra. }
  destruct (quiet_run_stays_dark reads inputs Hq)
    as (_ & _ & _ & _ & _ & Hd & Hl).
  split; [exact Hq|]; split; [exact Hd | exact Hl].
Defined.

(** ** The speed of the display *)

Lemma wf_risingState : wf risingState.
Proof.
  split; cbn [risingState volumeFilter filterIndex rawVolumeHistory
              volumeIndex peakHistory peakIndex peakCount];
    unfold FILTER_SIZE, VOLUME_SAMPLES, PEAK_HISTORY_SIZE;
    try rewrite repeat_length; try reflexivity; lia.
Qed.

(** X17. A steady level is approached geometrically.  In a well-formed
    state whose moving-average window holds the level [x] in every slot and
    whose [previousVolume] is [x], a cycle whose normalized volume is again
    [x] leaves the window, [volume] and [previousVolume] at [x] and brings
    [smoothVolume] to a fifth of its former distance from [x]. *)
Theorem steady_level_converges :
  forall (now : Z) (rd : Read) (rms x : R) (st : State),
    wf st ->
    blockRms 100000 rd = Some rms ->
    Forall (fun y => y = x) (volumeFilter st) ->
    previousVolume st = x ->
    rawVolumeOf (calibratedVolumeOf rms (baselineNoise st))
                (dynamicScaleFactor st) = x ->
    let st' := fst (loop now rd st) in
    Forall (fun y => y = x) (volumeFilter st') /\
    volume st' = x /\ previousVolume st' = x /\
    smoothVolume st' - x = 0.2 * (smoothVolume st - x).
Proof.
  intros now rd rms x st Hwf Hrms Hf Hp Hraw st'; subst st'; unfold loop.
  destruct (update_sameSignal now (acquire rd st))
    as (-> & -> & -> & -> & _).
  unfold acquire; rewrite Hrms.
  cbn [processRms volumeFilter volume previousVolume smoothVolume].
  rewrite Hraw, Hp.
  assert (Hf' : Forall (fun y => y = x)
                       (array_set (volumeFilter st) (filterIndex st) x))
    by (apply array_set_Forall; [exact Hf | reflexivity]).
  assert (Hlen : List.length (array_set (volumeFilter st) (filterIndex st) x)
                 = 5%nat)
    by (rewrite array_set_length; apply (wf_filter_len _ Hwf)).
  assert (Hma : sumUpTo FILTER_SIZE
                  (array_set (volumeFilter st) (filterIndex st) x)
                / IZR FILTER_SIZE = x).
  { destruct (length5 _ Hlen) as (a & b & c & d & e & Hl).
    rewrite Hl in *.
    repeat match goal with
           | H : Forall _ (_ :: _) |- _ => inversion H; clear H; subst
           end.
    unfold sumUpTo, FILTER_SIZE; simpl; lra. }
  assert (Hv : limitJump x
                 (sumUpTo FILTER_SIZE
                    (array_set (volumeFilter st) (filterIndex st) x)
                  / IZR FILTER_SIZE) = x).
  { rewrite Hma; unfold limitJump, MAX_VOLUME_TARGET.
    replace (x - x) with 0 by lra; rewrite Rabs_R0.
    destruct (Rgt_dec 0 (3000 * 0.3)); lra. }
  rewrite Hv.
  split; [exact Hf'|]; split; [reflexivity|]; split; [reflexivity|].
  unfold SMOOTHING_FACTOR; lra.
Qed.

(** One steady block brings [smoothVolume] from 0 to 1800. *)
Lemma steady_level_converges_witness :
  let st := risingState in
  wf st /\ blockRms 100000 steadyRead = Some 2250 /\
  smoothVolume (fst (loop 0 steadyRead st)) - 2250 = 0.2 * (0 - 2250).
Proof.
  intros st.
  assert (Hwf : wf st) by exact wf_risingState.
  assert (Hf : Forall (fun y => y = 2250) (volumeFilter st))
    by (repeat constructor).
  assert (Hraw : rawVolumeOf (calibratedVolumeOf 2250 (baselineNoise st))
                             (dynamicScaleFactor st) = 2250).
  { unfold st; cbn [risingState baselineNoise dynamicScaleFactor].
    assert (Hc : calibratedVolumeOf 2250 0 = 2250)
      by (unfold calibratedVolumeOf, c_max; cases_R).
    rewrite Hc; unfold rawVolumeOf, constrain, MAX_VOLUME_TARGET; cases_R. }
  split; [exact Hwf|]; split; [exact blockRms_steadyRead|].
  exact (proj2 (proj2 (proj2
           (steady_level_converges 0 steadyRead 2250 2250 st Hwf
              blockRms_steadyRead Hf eq_refl Hraw)))).
Defined.

Lemma blockRms_loudRead : blockRms 100000 loudRead = Some 20000.
Proof.
  assert (H : blockRms 100000 loudRead = Some (sqrt ((0 + 400000000) / 1)))
    by reflexivity.
  rewrite H; f_equal; apply sqrt_lem_1; lra.
Qed.

(** X18. During a run the displayed volume moves by at most a fifth of the
    target range per iteration: after [setup] and any number of iterations,
    one more iteration changes [volume] by at most 600 in magnitude, on any
    input.  The bound is reached: at power-on with the default baseline,
    one block of level 20000 takes [volume] from 0 to 600. *)
Theorem volume_step_bounded :
  (forall (reads : nat -> Read) (inputs : list (Z * Read))
          (now : Z) (rd : Read),
     let st := run inputs (setup reads) in
     Rabs (volume (fst (loop now rd st)) - volume st) <= 600) /\
  volume (setup (fun _ => failedRead)) = 0 /\
  volume (fst (loop 0 loudRead (setup (fun _ => failedRead)))) = 600.
Proof.
  split.
  - intros reads inputs now rd st; unfold loop.
    destruct (update_sameSignal now (acquire rd st)) as (-> & _).
    assert (Hv : volume st = previousVolume st).
    { subst st.
      apply (run_invariant (fun s => volume s = previousVolume s));
        [intros n r s; apply volume_previous_loop|].
      destruct (calibrateBaseline_sameSignal reads initial_state)
        as (Hvol & _ & Hp & _).
      unfold setup; rewrite Hvol, Hp; reflexivity. }
    unfold acquire; destruct (blockRms 100000 rd) as [rms|].
    + destruct (movingAverage_step rms st (wf_run inputs reads)
                  (bounded_run inputs reads) (tracking_run inputs reads))
        as [Hd Hvol].
      rewrite Hvol, Hv; exact Hd.
    + replace (volume st - volume st) with 0 by lra; rewrite Rabs_R0; lra.
  - split; [reflexivity|].
    unfold loop.
    destruct (update_sameSignal 0
                (acquire loudRead (setup (fun _ => failedRead)))) as (-> & _).
    unfold acquire; rewrite blockRms_loudRead.
    change (setup (fun _ => failedRead)) with initial_state.
    cbn [processRms volume initial_state baselineNoise dynamicScaleFactor
         volumeFilter filterIndex previousVolume].
    assert (Hc : calibratedVolumeOf 20000 15000 = 5000)
      by (unfold calibratedVolumeOf, c_max; cases_R).
    assert (Hr : rawVolumeOf 5000 2 = 3000)
      by (unfold rawVolumeOf, constrain, MAX_VOLUME_TARGET; cases_R).
    rewrite Hc, Hr.
    unfold sumUpTo, FILTER_SIZE; simpl.
    unfold limitJump, MAX_VOLUME_TARGET.
    replace ((0 + 3000 + 0 + 0 + 0 + 0) / 5) with 600 by lra.
    replace (600 - 0) with 600 by lra.
    rewrite Rabs_pos_eq by lra.
    destruct (Rgt_dec 600 (3000 * 0.3)); lra.
Qed.
